(** * Reflections: the optics engine of [src/util/optics-helpers.ts]
      and the visibility / ray-path helpers of [src/util/render-helpers.ts]

    A shallow embedding of the geometry code.  JavaScript numbers that carry
    coordinates, lengths and angles are modelled as real numbers ([R]), so
    arithmetic is exact: rounding error, NaN, infinities and signed zeros of
    IEEE doubles are outside the model.  Numbers that only ever hold counters
    ([order], the reflection depth) are modelled as integers ([Z]).

    JavaScript compares objects by identity ([===], [Array.includes]).  Every
    mirror object therefore carries [m_ref], the address of the object; the
    identity tests of the source are tests on [m_ref]. *)

From Stdlib Require Import Reals Lra Lia ZArith List Bool String.
Import ListNotations.
Open Scope R_scope.
Set Warnings "-register-all".

(** ** Numeric primitives *)

Definition Rltb (a b : R) : bool := if Rlt_dec a b then true else false.
Definition Rgtb (a b : R) : bool := Rltb b a.

(** [Math.round]: the nearest integer, ties towards plus infinity. *)
Definition Math_round (r : R) : Z := Int_part (r + / 2).

(** Truncation towards zero, and the [%] operator on numbers built on it
    (the result takes the sign of the dividend). *)
Definition Rtrunc (r : R) : Z :=
  if Rle_dec 0 r then Int_part r else (- Int_part (- r))%Z.

Definition js_rem (a b : R) : R := a - b * IZR (Rtrunc (a / b)).

(** [Math.atan2 y x] on the reals. *)
Definition Math_atan2 (y x : R) : R :=
  if Rlt_dec 0 x then atan (y / x)
  else if Rlt_dec x 0 then
         (if Rle_dec 0 y then atan (y / x) + PI else atan (y / x) - PI)
  else if Rlt_dec 0 y then PI / 2
  else if Rlt_dec y 0 then - (PI / 2)
  else 0.

(** ** Data model ([types.ts]) *)

Record Point : Type := mkPoint { x : R; y : R }.

Inductive MirrorProps : Type := mkMirror {
  m_ref : nat;
  m_position : Point;
  m_width : R;
  m_height : R;
  m_rotation : R;
  m_isVirtual : option bool;
  m_order : option Z;
  m_sourceMirror : option MirrorProps
}.

Record ObjectProps : Type := mkObject {
  o_position : Point;
  o_size : R;
  o_direction : R
}.

Record VirtualImage : Type := mkImage {
  v_position : Point;
  v_direction : R;
  v_size : R;
  v_order : Z;
  v_sourceMirror : MirrorProps
}.

Record ObserverProps : Type := mkObserver {
  ob_position : Point;
  ob_size : R;
  ob_color : string
}.

(** [VirtualImage extends ObjectProps]: an image used where an object is
    expected. *)
Definition asObject (v : VirtualImage) : ObjectProps :=
  mkObject (v_position v) (v_size v) (v_direction v).

(** [a === b] on mirror objects. *)
Definition same_mirror (a b : MirrorProps) : bool := Nat.eqb (m_ref a) (m_ref b).

(** [a === b] where [b] may be [null]. *)
Definition same_mirror_opt (a : MirrorProps) (b : option MirrorProps) : bool :=
  match b with
  | Some b' => same_mirror a b'
  | None => false
  end.

(** [group.includes(m)]. *)
Definition includes (group : list MirrorProps) (m : MirrorProps) : bool :=
  existsb (fun g => same_mirror g m) group.

(** ** Mirror geometry and vector operations *)

Definition getMirrorEndpoints (mirror : MirrorProps) : Point * Point :=
  let radians := (m_rotation mirror * PI) / 180 in
  let halfHeight := m_height mirror / 2 in
  let start := mkPoint (x (m_position mirror) + sin radians * halfHeight)
                       (y (m_position mirror) - cos radians * halfHeight) in
  let end_ := mkPoint (x (m_position mirror) - sin radians * halfHeight)
                      (y (m_position mirror) + cos radians * halfHeight) in
  (start, end_).

Definition getMirrorNormal (mirror : MirrorProps) : Point :=
  let radians := (m_rotation mirror * PI) / 180 in
  mkPoint (cos radians) (sin radians).

Definition dotProduct (v1 v2 : Point) : R := x v1 * x v2 + y v1 * y v2.

Definition subtractVectors (v1 v2 : Point) : Point :=
  mkPoint (x v1 - x v2) (y v1 - y v2).

Definition addVectors (v1 v2 : Point) : Point :=
  mkPoint (x v1 + x v2) (y v1 + y v2).

Definition multiplyVector (v : Point) (scalar : R) : Point :=
  mkPoint (x v * scalar) (y v * scalar).

(** ** Segment intersection *)

Definition denomOf (p1 p2 p3 p4 : Point) : R :=
  (y p4 - y p3) * (x p2 - x p1) - (x p4 - x p3) * (y p2 - y p1).

Definition uaOf (p1 p2 p3 p4 : Point) : R :=
  ((x p4 - x p3) * (y p1 - y p3) - (y p4 - y p3) * (x p1 - x p3))
  / denomOf p1 p2 p3 p4.

Definition ubOf (p1 p2 p3 p4 : Point) : R :=
  ((x p2 - x p1) * (y p1 - y p3) - (y p2 - y p1) * (x p1 - x p3))
  / denomOf p1 p2 p3 p4.

(** The four arguments are typed [Point]; the source's guard against a
    missing point cannot fire on them. *)
Definition lineIntersection (p1 p2 p3 p4 : Point) : option Point :=
  let denom := denomOf p1 p2 p3 p4 in
  if Rltb (Rabs denom) (1 / 10000) then None
  else
    let ua := uaOf p1 p2 p3 p4 in
    let ub := ubOf p1 p2 p3 p4 in
    if Rltb ua 0 || Rgtb ua 1 || Rltb ub 0 || Rgtb ub 1 then None
    else Some (mkPoint (x p1 + ua * (x p2 - x p1)) (y p1 + ua * (y p2 - y p1))).

(** Truthiness of a [Point | null] result. *)
Definition truthy {A : Type} (o : option A) : bool :=
  match o with Some _ => true | None => false end.

(** ** Visibility *)

Fixpoint isDirectlyVisible (from to : Point) (mirrors : list MirrorProps) : bool :=
  match mirrors with
  | [] => true
  | mirror :: rest =>
      let '(mirrorStart, mirrorEnd) := getMirrorEndpoints mirror in
      if truthy (lineIntersection from to mirrorStart mirrorEnd) then false
      else isDirectlyVisible from to rest
  end.

(** ** Virtual images *)

Definition normalizedMirrorAngle (mirror : MirrorProps) : R :=
  let mirrorAngle := (m_rotation mirror * PI) / 180 in
  js_rem (js_rem ((mirrorAngle * 180) / PI) 360 + 360) 360.

Definition calculateVirtualImagePosition
    (object : ObjectProps) (mirror : MirrorProps) : VirtualImage :=
  let normal := getMirrorNormal mirror in
  let mirrorToObj := subtractVectors (o_position object) (m_position mirror) in
  let dist := dotProduct mirrorToObj normal in
  let position := mkPoint (x (o_position object) - 2 * dist * x normal)
                          (y (o_position object) - 2 * dist * y normal) in
  let reflectedDirection :=
    js_rem (2 * normalizedMirrorAngle mirror - o_direction object + 180) 360 in
  mkImage position reflectedDirection (o_size object) 1%Z mirror.

(** ** Parallel mirrors *)

Definition areParallel (mirror1 mirror2 : MirrorProps) : bool :=
  let epsilon := 1 / 1000 in
  let normal1 := getMirrorNormal mirror1 in
  let normal2 := getMirrorNormal mirror2 in
  Rgtb (Rabs (x normal1 * x normal2 + y normal1 * y normal2)) (1 - epsilon).

(** The dedup key [`${round x},${round y},${reflection}`]: the three integers
    it is printed from (printing integers separated by commas is injective). *)
Definition Key : Type := (Z * Z * Z)%type.

Definition key_eqb (k1 k2 : Key) : bool :=
  let '(a1, b1, c1) := k1 in
  let '(a2, b2, c2) := k2 in
  (a1 =? a2)%Z && (b1 =? b2)%Z && (c1 =? c2)%Z.

(** [imageMap.has(key)]; the map only ever stores [true], so its key set is
    all that matters. *)
Definition map_has (imageMap : list Key) (key : Key) : bool :=
  existsb (key_eqb key) imageMap.

Definition map_set (imageMap : list Key) (key : Key) : list Key :=
  if map_has imageMap key then imageMap else imageMap ++ [key].

Record VirtualObject : Type := mkVObj {
  vo_position : Point;
  vo_direction : R;
  vo_size : R;
  vo_sourceObject : ObjectProps;
  vo_sourceMirror : option MirrorProps;
  vo_reflectionOrder : Z
}.

(** The mutable locals of one pass of the reflection loop. *)
Record PassState : Type := mkPass {
  imageMap : list Key;
  results : list VirtualImage;
  newVirtualObjects : list VirtualObject
}.

(** Body of [mirrors.forEach] inside [virtualObjects.forEach]. *)
Definition reflectIn (reflection : Z) (vObj : VirtualObject)
    (st : PassState) (mirror : MirrorProps) : PassState :=
  if same_mirror_opt mirror (vo_sourceMirror vObj) then st
  else
    let virtual :=
      calculateVirtualImagePosition
        (mkObject (vo_position vObj) (o_size (vo_sourceObject vObj))
                  (vo_direction vObj))
        mirror in
    let key := (Math_round (x (v_position virtual)),
                Math_round (y (v_position virtual)),
                reflection) in
    if map_has (imageMap st) key then st
    else
      mkPass (map_set (imageMap st) key)
             (results st ++
                [mkImage (v_position virtual) (v_direction virtual)
                         (v_size virtual) reflection mirror])
             (newVirtualObjects st ++
                [mkVObj (v_position virtual) (v_direction virtual)
                        (v_size virtual) (vo_sourceObject vObj)
                        (Some mirror) reflection]).

Definition reflectionPass (reflection : Z) (mirrors : list MirrorProps)
    (virtualObjects : list VirtualObject) (st : PassState) : PassState :=
  fold_left
    (fun st vObj => fold_left (reflectIn reflection vObj) mirrors st)
    virtualObjects st.

(** [for (reflection = 1; reflection <= maxReflections; reflection++)], with
    [n] the number of iterations still to run. *)
Fixpoint reflectionLoop (n : nat) (reflection : Z) (mirrors : list MirrorProps)
    (virtualObjects : list VirtualObject) (imageMap0 : list Key)
    (results0 : list VirtualImage) : list VirtualImage :=
  match n with
  | O => results0
  | S n' =>
      let st := reflectionPass reflection mirrors virtualObjects
                               (mkPass imageMap0 results0 []) in
      reflectionLoop n' (reflection + 1)%Z mirrors
                     (newVirtualObjects st) (imageMap st) (results st)
  end.

(** [maxReflections] defaults to 3 in the source. *)
Definition calculateParallelMirrorImages (object : ObjectProps)
    (mirrors : list MirrorProps) (maxReflections : Z) : list VirtualImage :=
  if (List.length mirrors <? 2)%nat then []
  else
    let virtualObjects :=
      [mkVObj (o_position object) (o_direction object) (o_size object)
              object None 0%Z] in
    let results := reflectionLoop (Z.to_nat maxReflections) 1%Z mirrors
                                  virtualObjects [] [] in
    map (fun result =>
           mkImage (v_position result) (v_direction result) (o_size object)
                   (v_order result) (v_sourceMirror result))
        results.

(** ** Parallel groups *)

Definition pushIfMissing (group : list MirrorProps) (m : MirrorProps)
  : list MirrorProps :=
  if includes group m then group else group ++ [m].

(** The [for (const group of groups)] scan: [Some] of the updated groups when
    a group holding either mirror was found, [None] when [found] stays
    false. *)
Fixpoint mergeIntoGroups (mi mj : MirrorProps) (groups : list (list MirrorProps))
  : option (list (list MirrorProps)) :=
  match groups with
  | [] => None
  | group :: rest =>
      if includes group mi || includes group mj
      then Some (pushIfMissing (pushIfMissing group mi) mj :: rest)
      else option_map (cons group) (mergeIntoGroups mi mj rest)
  end.

Definition groupPair (mi : MirrorProps) (groups : list (list MirrorProps))
    (mj : MirrorProps) : list (list MirrorProps) :=
  if areParallel mi mj then
    match mergeIntoGroups mi mj groups with
    | Some groups' => groups'
    | None => groups ++ [[mi; mj]]
    end
  else groups.

(** The outer loop at index [i] sees [mirrors[i]] and, in the inner loop, the
    mirrors after it. *)
Fixpoint groupLoop (mirrors : list MirrorProps) (groups : list (list MirrorProps))
  : list (list MirrorProps) :=
  match mirrors with
  | [] => groups
  | mi :: rest => groupLoop rest (fold_left (groupPair mi) rest groups)
  end.

Definition findParallelMirrorGroups (mirrors : list MirrorProps)
  : list (list MirrorProps) :=
  groupLoop mirrors [].

(** ** Virtual mirrors *)

(** The object literal returned by [calculateVirtualMirror] is a new object;
    [fresh] is the address it is allocated at. *)
Definition calculateVirtualMirror (fresh : nat)
    (sourceMirror reflectingMirror : MirrorProps) : MirrorProps :=
  let '(start, end_) := getMirrorEndpoints sourceMirror in
  let normal := getMirrorNormal reflectingMirror in
  let reflectingToStart := subtractVectors start (m_position reflectingMirror) in
  let distStart := dotProduct reflectingToStart normal in
  let virtualStart := mkPoint (x start - 2 * distStart * x normal)
                              (y start - 2 * distStart * y normal) in
  let reflectingToEnd := subtractVectors end_ (m_position reflectingMirror) in
  let distEnd := dotProduct reflectingToEnd normal in
  let virtualEnd := mkPoint (x end_ - 2 * distEnd * x normal)
                            (y end_ - 2 * distEnd * y normal) in
  let virtualCenter := mkPoint ((x virtualStart + x virtualEnd) / 2)
                               ((y virtualStart + y virtualEnd) / 2) in
  let virtualHeight :=
    sqrt ((x virtualEnd - x virtualStart) ^ 2 + (y virtualEnd - y virtualStart) ^ 2) in
  let dx := x virtualEnd - x virtualStart in
  let dy := y virtualEnd - y virtualStart in
  let virtualRotation := (Math_atan2 dx (- dy) * 180) / PI in
  mkMirror fresh virtualCenter (m_width sourceMirror) virtualHeight
           virtualRotation (Some true) (Some 1%Z) (Some reflectingMirror).

(** The assignments [m.isVirtual = true; m.order = k]. *)
Definition tagVirtual (k : Z) (m : MirrorProps) : MirrorProps :=
  mkMirror (m_ref m) (m_position m) (m_width m) (m_height m) (m_rotation m)
           (Some true) (Some k) (m_sourceMirror m).

(** A list with the index of each element, as the [for (i = 0; ...)] loops
    see it. *)
Definition indexed {A : Type} (l : list A) : list (nat * A) :=
  combine (seq 0 (List.length l)) l.

(** Loop state: the next free address and the array being filled. *)
Definition VmState : Type := (nat * list MirrorProps)%type.

Definition firstOrderStep (im : nat * MirrorProps) (st : VmState)
    (jm : nat * MirrorProps) : VmState :=
  if negb (fst im =? fst jm)%nat then
    let virtualMirror :=
      tagVirtual 1 (calculateVirtualMirror (fst st) (snd im) (snd jm)) in
    (S (fst st), snd st ++ [virtualMirror])
  else st.

Definition firstOrderLoop (mirrors : list MirrorProps) (st : VmState) : VmState :=
  fold_left
    (fun st im => fold_left (firstOrderStep im) (indexed mirrors) st)
    (indexed mirrors) st.

Definition secondOrderStep (v : MirrorProps) (st : VmState)
    (mj : MirrorProps) : VmState :=
  if negb (same_mirror_opt mj (m_sourceMirror v)) then
    let secondOrderMirror :=
      tagVirtual 2 (calculateVirtualMirror (fst st) v mj) in
    (S (fst st), snd st ++ [secondOrderMirror])
  else st.

Definition secondOrderLoop (firstOrderVirtualMirrors mirrors : list MirrorProps)
    (st : VmState) : VmState :=
  fold_left
    (fun st v => fold_left (secondOrderStep v) mirrors st)
    firstOrderVirtualMirrors st.

(** [alloc] is the first free address when the function is entered.  The
    first loop pushes every new mirror on both [firstOrderVirtualMirrors] and
    [virtualMirrors], which are therefore equal when the second loop starts. *)
Definition calculateVirtualMirrors (alloc : nat) (mirrors : list MirrorProps)
  : list MirrorProps :=
  if (List.length mirrors <=? 1)%nat then []
  else
    let st1 := firstOrderLoop mirrors (alloc, []) in
    let firstOrderVirtualMirrors := snd st1 in
    snd (secondOrderLoop firstOrderVirtualMirrors mirrors st1).

(** ** Visibility of a virtual image ([render-helpers.ts]) *)

Fixpoint isImageVisible (observers : list ObserverProps)
    (mirrors : list MirrorProps) (virtualPos : Point) (mirror : MirrorProps)
  : bool :=
  match observers with
  | [] => false
  | observer :: rest =>
      let mirrorNormal := getMirrorNormal mirror in
      let mirrorToObserver :=
        subtractVectors (ob_position observer) (m_position mirror) in
      let mirrorToVirtual := subtractVectors virtualPos (m_position mirror) in
      let observerSide := dotProduct mirrorToObserver mirrorNormal in
      let virtualSide := dotProduct mirrorToVirtual mirrorNormal in
      if Rltb (observerSide * virtualSide) 0
         && isDirectlyVisible (ob_position observer) virtualPos
              (filter (fun m => negb (same_mirror m mirror)) mirrors)
      then true
      else isImageVisible rest mirrors virtualPos mirror
  end.

(** ** Ray path reconstruction ([drawLightRay]) *)

(** The canvas is modelled by what [drawPath] strokes on it, in order. *)
Record Stroke : Type := mkStroke {
  s_start : Point;
  s_end : Point;
  s_dashed : bool;
  s_color : string
}.

Definition Canvas : Type := list Stroke.

(** [colors[(order - 1) % colors.length]]: [undefined] when the index is
    negative. *)
Definition getColorForOrder (order : Z) : option string :=
  let colors := ["rgb(255, 0, 0)"; "rgb(220, 50, 220)";
                 "rgb(50, 220, 220)"; "rgb(50, 50, 220)"]%string in
  let i := Z.rem (order - 1) (Z.of_nat (List.length colors)) in
  if (i <? 0)%Z then None else nth_error colors (Z.to_nat i).

(** [drawPath]; an [undefined] colour takes the default of the parameter. *)
Definition drawPath (ctx : Canvas) (start end_ : Point) (dashed : bool)
    (color : option string) : Canvas :=
  ctx ++ [mkStroke start end_ dashed
            (match color with Some c => c | None => "#ff00ff"%string end)].

Definition findPrevImage (parallelImage : option (list VirtualImage))
    (currentImage : VirtualImage) : option VirtualImage :=
  match parallelImage with
  | None => None
  | Some images =>
      find (fun img =>
              (v_order img =? v_order currentImage - 1)%Z
              && negb (same_mirror (v_sourceMirror img)
                                   (v_sourceMirror currentImage)))
           images
  end.

(** The [while (currentImage.order > 1)] loop.  [fuel] bounds the number of
    iterations; [None] means the bound was hit before the loop ended. *)
Fixpoint traceBack (fuel : nat) (parallelImage : option (list VirtualImage))
    (object : ObjectProps) (color : option string)
    (currentIntersection : Point) (currentImage : VirtualImage)
    (ctx : Canvas) : option Canvas :=
  if negb (1 <? v_order currentImage)%Z then Some ctx
  else
    match fuel with
    | O => None
    | S fuel' =>
        match findPrevImage parallelImage currentImage with
        | None => Some ctx
        | Some prevImage =>
            let '(prevStart, prevEnd) :=
              getMirrorEndpoints (v_sourceMirror prevImage) in
            match lineIntersection currentIntersection (v_position prevImage)
                                   prevStart prevEnd with
            | Some prevIntersection =>
                let ctx1 := drawPath ctx prevIntersection currentIntersection
                                     false color in
                let ctx2 :=
                  if (v_order prevImage =? 1)%Z
                  then drawPath ctx1 (o_position object) prevIntersection
                                false color
                  else ctx1 in
                traceBack fuel' parallelImage object color
                          prevIntersection prevImage ctx2
            | None => Some ctx
            end
        end
    end.

(** Each iteration lowers [currentImage.order] by one, so the loop runs at
    most [order - 1] times. *)
Definition traceFuel (virtualImage : VirtualImage) : nat :=
  Z.to_nat (v_order virtualImage).

Definition drawLightRay (ctx : Canvas) (virtualImage : VirtualImage)
    (object : ObjectProps) (observer : ObserverProps) (mirror : MirrorProps)
    (parallelImage : option (list VirtualImage)) : option Canvas :=
  let '(mirrorStart, mirrorEnd) := getMirrorEndpoints mirror in
  match lineIntersection (v_position virtualImage) (ob_position observer)
                         mirrorStart mirrorEnd with
  | None => Some ctx
  | Some mirrorIntersection =>
      let virtualImageColor := getColorForOrder (v_order virtualImage) in
      let ctx1 := drawPath ctx mirrorIntersection (ob_position observer)
                           false virtualImageColor in
      let ctx2 := drawPath ctx1 mirrorIntersection (v_position virtualImage)
                           true virtualImageColor in
      if (v_order virtualImage =? 1)%Z
      then Some (drawPath ctx2 (o_position object) mirrorIntersection
                          false virtualImageColor)
      else traceBack (traceFuel virtualImage) parallelImage object
                     virtualImageColor mirrorIntersection virtualImage ctx2
  end.

(** ** The remaining helpers of [optics-helpers.ts] *)

Definition Rleb (a b : R) : bool := if Rle_dec a b then true else false.

Definition vectorLength (v : Point) : R := sqrt (x v * x v + y v * y v).

Definition normalizeVector (v : Point) : Point :=
  let length := vectorLength v in
  if Req_dec_T length 0 then mkPoint 0 0
  else mkPoint (x v / length) (y v / length).

(** The arguments are typed; the source's guards against a missing direction
    or mirror cannot fire on them. *)
Definition calculateReflection (rayStart rayDirection : Point)
    (mirror : MirrorProps) : option Point :=
  let '(mirrorStart, mirrorEnd) := getMirrorEndpoints mirror in
  let mirrorNormal := getMirrorNormal mirror in
  let intersection :=
    lineIntersection rayStart (addVectors rayStart rayDirection)
                     mirrorStart mirrorEnd in
  if negb (truthy intersection) then None
  else
    let dot := dotProduct rayDirection mirrorNormal in
    let reflection :=
      subtractVectors rayDirection (multiplyVector mirrorNormal (2 * dot)) in
    Some (normalizeVector reflection).

Definition isPointInMirror (px py : R) (mirror : MirrorProps) : bool :=
  let dx := px - x (m_position mirror) in
  let dy := py - y (m_position mirror) in
  let angle := - (m_rotation mirror * PI) / 180 in
  let rotatedX := dx * cos angle - dy * sin angle in
  let rotatedY := dx * sin angle + dy * cos angle in
  Rleb (Rabs rotatedX) (m_width mirror / 2)
  && Rleb (Rabs rotatedY) (m_height mirror / 2).

Definition distanceToMirror (point : Point) (mirror : MirrorProps) : R :=
  let '(p1, p2) := getMirrorEndpoints mirror in
  let A := x point - x p1 in
  let B := y point - y p1 in
  let C := x p2 - x p1 in
  let D := y p2 - y p1 in
  let dot := A * C + B * D in
  let lenSq := C * C + D * D in
  let param := if Req_dec_T lenSq 0 then -1 else dot / lenSq in
  let '(xx, yy) :=
    if Rltb param 0 then (x p1, y p1)
    else if Rgtb param 1 then (x p2, y p2)
    else (x p1 + param * C, y p1 + param * D) in
  let dx := x point - xx in
  let dy := y point - yy in
  sqrt (dx * dx + dy * dy).

(** ** The scene state ([contexts/OpticsContext.tsx], [components/Toolbar.tsx])

    The state setters are modelled by the list of mirrors they install; a
    call that returns early leaves the list as it is.  Indices are the
    integers the callers pass. *)

(** [Partial<MirrorProps>]: the fields a caller provides. *)
Record MirrorPatch : Type := mkPatch {
  pp_position : option Point;
  pp_width : option R;
  pp_height : option R;
  pp_rotation : option R;
  pp_isVirtual : option bool;
  pp_order : option Z;
  pp_sourceMirror : option MirrorProps
}.

Definition orElse {A : Type} (o : option A) (a : A) : A :=
  match o with Some a' => a' | None => a end.

Definition orKeep {A : Type} (o old : option A) : option A :=
  match o with Some a' => Some a' | None => old end.

(** [{ ...old, ...props }], a new object at address [fresh]. *)
Definition applyPatch (fresh : nat) (old : MirrorProps) (props : MirrorPatch)
  : MirrorProps :=
  mkMirror fresh
    (orElse (pp_position props) (m_position old))
    (orElse (pp_width props) (m_width old))
    (orElse (pp_height props) (m_height old))
    (orElse (pp_rotation props) (m_rotation old))
    (orKeep (pp_isVirtual props) (m_isVirtual old))
    (orKeep (pp_order props) (m_order old))
    (orKeep (pp_sourceMirror props) (m_sourceMirror old)).

(** [l[n] = a] for an index inside the array. *)
Fixpoint setAt {A : Type} (l : list A) (n : nat) (a : A) : list A :=
  match l, n with
  | [], _ => []
  | _ :: rest, O => a :: rest
  | b :: rest, S n' => b :: setAt rest n' a
  end.

Definition outOfRange {A : Type} (l : list A) (index : Z) : bool :=
  (index <? 0)%Z || (index >=? Z.of_nat (List.length l))%Z.

Definition updateMirror (fresh : nat) (mirrors : list MirrorProps)
    (index : Z) (props : MirrorPatch) : list MirrorProps :=
  if outOfRange mirrors index then mirrors
  else
    match nth_error mirrors (Z.to_nat index) with
    | Some old => setAt mirrors (Z.to_nat index) (applyPatch fresh old props)
    | None => mirrors
    end.

Definition removeMirror (mirrors : list MirrorProps) (index : Z)
  : list MirrorProps :=
  if outOfRange mirrors index then mirrors
  else
    map snd
        (filter (fun im => negb (Z.of_nat (fst im) =? index)%Z)
                (indexed mirrors)).

(** The module constant [defaultMirror], for the window size at load time;
    [ref] is its address. *)
Definition defaultMirror (ref : nat) (innerWidth innerHeight : R) : MirrorProps :=
  mkMirror ref (mkPoint (innerWidth * 1 * (38 / 100)) (innerHeight / 2))
           6 400 180 None None None.

(** [addMirror], for the window size at the time of the call; the mirror it
    creates is a new object at address [fresh]. *)
Definition addMirror (dflt : MirrorProps) (innerWidth innerHeight : R)
    (fresh : nat) (prev : list MirrorProps) : list MirrorProps :=
  match List.length prev with
  | 2%nat =>
      prev ++
      [mkMirror fresh
         (mkPoint ((innerWidth * 1) / 2) ((innerHeight * 1) / 4))
         (m_width dflt) (m_height dflt) 90
         (m_isVirtual dflt) (m_order dflt) (m_sourceMirror dflt)]
  | 1%nat =>
      prev ++
      [mkMirror fresh
         (mkPoint (innerWidth * (62 / 100)) (y (m_position dflt)))
         (m_width dflt) (m_height dflt) (m_rotation dflt)
         (m_isVirtual dflt) (m_order dflt) (m_sourceMirror dflt)]
  | _ => [dflt]
  end.

(** The toolbar slider's [onChange], [value] being the parsed number. *)
Definition sliderChange (dflt : MirrorProps) (innerWidth innerHeight : R)
    (fresh : nat) (value : Z) (mirrors : list MirrorProps)
  : list MirrorProps :=
  if (value <? Z.of_nat (List.length mirrors))%Z
  then removeMirror mirrors (Z.of_nat (List.length mirrors) - 1)
  else addMirror dflt innerWidth innerHeight fresh mirrors.

(** The patch of a drag: [{ position: { x: newX, y: newY } }]. *)
Definition dragPatch (p : Point) : MirrorPatch :=
  mkPatch (Some p) None None None None None None.

(** The mirror lists the application can be in: it starts with a copy of the
    default mirror; the slider adds or removes a mirror; dragging moves
    one. *)
Inductive reachable (dflt : MirrorProps) : list MirrorProps -> Prop :=
| reach_init (fresh : nat) :
    reachable dflt [applyPatch fresh dflt
                      (mkPatch None None None None None None None)]
| reach_slider (innerWidth innerHeight : R) (fresh : nat) (value : Z)
    (mirrors : list MirrorProps) :
    reachable dflt mirrors ->
    reachable dflt (sliderChange dflt innerWidth innerHeight fresh value mirrors)
| reach_drag (fresh : nat) (index : Z) (p : Point)
    (mirrors : list MirrorProps) :
    reachable dflt mirrors ->
    reachable dflt (updateMirror fresh mirrors index (dragPatch p)).

(** * Specification vocabulary *)

(** [q] lies on the segment from [a] to [b] at parameter [t]. *)
Definition onSegmentAt (q a b : Point) (t : R) : Prop :=
  0 <= t <= 1 /\ x q = x a + t * (x b - x a) /\ y q = y a + t * (y b - y a).

(** The three ways [lineIntersection] gives up. *)
Definition noIntersection (p1 p2 p3 p4 : Point) : Prop :=
  Rabs (denomOf p1 p2 p3 p4) < 1 / 10000
  \/ uaOf p1 p2 p3 p4 < 0 \/ uaOf p1 p2 p3 p4 > 1
  \/ ubOf p1 p2 p3 p4 < 0 \/ ubOf p1 p2 p3 p4 > 1.

(** The signed side of [mirror]'s plane a point lies on. *)
Definition sideOf (mirror : MirrorProps) (p : Point) : R :=
  dotProduct (subtractVectors p (m_position mirror)) (getMirrorNormal mirror).

(** The segment [from]-[to] meets the reflective segment of [m]. *)
Definition blockedBy (from to : Point) (m : MirrorProps) : Prop :=
  lineIntersection from to (fst (getMirrorEndpoints m))
                   (snd (getMirrorEndpoints m)) <> None.

(** What makes an image at [virtualPos], produced by [mirror], visible to
    [observer]. *)
Definition seesImage (observer : ObserverProps) (mirrors : list MirrorProps)
    (virtualPos : Point) (mirror : MirrorProps) : Prop :=
  sideOf mirror (ob_position observer) * sideOf mirror virtualPos < 0
  /\ forall m, In m mirrors -> same_mirror m mirror = false ->
               ~ blockedBy (ob_position observer) virtualPos m.

(** No mirror object belongs to two of the groups. *)
Definition disjointGroups (groups : list (list MirrorProps)) : Prop :=
  forall i j g h, i <> j ->
    nth_error groups i = Some g -> nth_error groups j = Some h ->
    forall a b, In a g -> In b h -> same_mirror a b = false.

(** Any two mirrors of one group are parallel. *)
Definition parallelWithin (groups : list (list MirrorProps)) : Prop :=
  forall g a b, In g groups -> In a g -> In b g -> areParallel a b = true.

(** One address, one object: list entries with the same address are the same
    mirror. *)
Definition consistentRefs (mirrors : list MirrorProps) : Prop :=
  forall a b, In a mirrors -> In b mirrors -> m_ref a = m_ref b -> a = b.

(** [areParallel] is transitive on the mirrors of the list. *)
Definition parallelTransitiveOn (mirrors : list MirrorProps) : Prop :=
  forall a b c, In a mirrors -> In b mirrors -> In c mirrors ->
    areParallel a b = true -> areParallel b c = true -> areParallel a c = true.

(** A real mirror of the default size, at the origin. *)
Definition plainMirror (ref : nat) (rotation : R) : MirrorProps :=
  mkMirror ref (mkPoint 0 0) 6 400 rotation None None None.

(** Four mirrors at rotations 0, 4, 6 and 2 degrees: neighbours 2 degrees
    apart are within the tolerance of [areParallel], the others are not. *)
Definition skewScene : list MirrorProps :=
  [plainMirror 0 0; plainMirror 1 4; plainMirror 2 6; plainMirror 3 2].

(** [m] has been put in one of the groups. *)
Definition memberOf (groups : list (list MirrorProps)) (m : MirrorProps) : Prop :=
  exists g, In g groups /\ In m g.

(** No mirror of [g] is parallel to a mirror of [h]. *)
Definition skewTo (g h : list MirrorProps) : Prop :=
  forall a b, In a g -> In b h -> areParallel a b = false.

(** Groups at different positions are skew to each other. *)
Fixpoint apartGroups (groups : list (list MirrorProps)) : Prop :=
  match groups with
  | [] => True
  | g :: rest => (forall h, In h rest -> skewTo g h) /\ apartGroups rest
  end.

(** The groups hold mirrors of the list only. *)
Definition groupsOf (mirrors : list MirrorProps)
    (groups : list (list MirrorProps)) : Prop :=
  forall g m, In g groups -> In m g -> In m mirrors.

(** The invariant of the grouping loops. *)
Definition wellGrouped (mirrors : list MirrorProps)
    (groups : list (list MirrorProps)) : Prop :=
  groupsOf mirrors groups /\ parallelWithin groups /\ apartGroups groups.

(** If a mirror parallel to [m] is grouped already, so is [m]. *)
Definition claimsIts (groups : list (list MirrorProps)) (m : MirrorProps) : Prop :=
  forall a, memberOf groups a -> areParallel a m = true -> memberOf groups m.

(** The image of [object] in [mirror], tagged with reflection order [k]. *)
Definition imageAt (k : Z) (object : ObjectProps) (mirror : MirrorProps)
  : VirtualImage :=
  let v := calculateVirtualImagePosition object mirror in
  mkImage (v_position v) (v_direction v) (v_size v) k mirror.

(** The rounded position an image is deduplicated by. *)
Definition posKey (p : Point) : Z * Z := (Math_round (x p), Math_round (y p)).

(** The two reflection chains of an object between two mirrors, up to order
    three: each image is the image of the previous one in the other mirror. *)
Definition twoMirrorChains (object : ObjectProps) (m1 m2 : MirrorProps)
  : list VirtualImage :=
  let i1a := imageAt 1 object m1 in
  let i1b := imageAt 1 object m2 in
  let i2a := imageAt 2 (asObject i1a) m2 in
  let i2b := imageAt 2 (asObject i1b) m1 in
  let i3a := imageAt 3 (asObject i2a) m1 in
  let i3b := imageAt 3 (asObject i2b) m2 in
  [i1a; i1b; i2a; i2b; i3a; i3b].

(** The scene of the two-mirror scenario: mirrors of rotation 180 and 0 whose
    planes are 400 units apart, and an object midway between them. *)
Definition leftMirror : MirrorProps :=
  mkMirror 0 (mkPoint 0 300) 6 400 180 None None None.
Definition rightMirror : MirrorProps :=
  mkMirror 1 (mkPoint 400 300) 6 400 0 None None None.
Definition midObject : ObjectProps := mkObject (mkPoint 200 250) 30 0.

(** All pairs [(mirrors[i], mirrors[j])] with [i <> j], in loop order. *)
Definition orderedPairs (mirrors : list MirrorProps)
  : list (MirrorProps * MirrorProps) :=
  flat_map
    (fun im =>
       map (fun jm => (snd im, snd jm))
           (filter (fun jm => negb (fst im =? fst jm)%nat) (indexed mirrors)))
    (indexed mirrors).

(** All pairs of a first-order virtual mirror [v] and a real mirror [m] other
    than the one [v] was reflected in, in loop order. *)
Definition secondPairs (firstOrder mirrors : list MirrorProps)
  : list (MirrorProps * MirrorProps) :=
  flat_map
    (fun v =>
       map (fun m => (v, m))
           (filter (fun m => negb (same_mirror_opt m (m_sourceMirror v)))
                   mirrors))
    firstOrder.

(** The virtual mirrors of the pairs [(source, reflecting)], tagged with
    order [k] and allocated at consecutive addresses from [alloc] on. *)
Fixpoint reflectAll (k : Z) (alloc : nat)
    (pairs : list (MirrorProps * MirrorProps)) : list MirrorProps :=
  match pairs with
  | [] => []
  | (source, reflecting) :: rest =>
      tagVirtual k (calculateVirtualMirror alloc source reflecting)
      :: reflectAll k (S alloc) rest
  end.

(** The backward walk cannot go on from [currentImage]: no image one order
    lower with another source mirror is in the list, or the segment towards
    that image misses its mirror. *)
Definition chainBroken (parallelImage : option (list VirtualImage))
    (currentIntersection : Point) (currentImage : VirtualImage) : Prop :=
  findPrevImage parallelImage currentImage = None
  \/ exists prevImage,
       findPrevImage parallelImage currentImage = Some prevImage
       /\ lineIntersection currentIntersection (v_position prevImage)
            (fst (getMirrorEndpoints (v_sourceMirror prevImage)))
            (snd (getMirrorEndpoints (v_sourceMirror prevImage))) = None.

(** [ctx'] is [ctx] with further strokes drawn after it. *)
Definition extends (ctx ctx' : Canvas) : Prop := exists more, ctx' = ctx ++ more.

(** Two mirrors facing each other and a third one at right angles. *)
Definition cornerScene : list MirrorProps :=
  [plainMirror 0 0; plainMirror 1 180; plainMirror 2 90].

(** The squared distance between two points. *)
Definition distSq (p q : Point) : R :=
  (x p - x q) * (x p - x q) + (y p - y q) * (y p - y q).

(** [a] stands before [b] in the list: [a = l[i]] and [b = l[j]] for some
    [i < j]. *)
Definition orderedIn (l : list MirrorProps) (a b : MirrorProps) : Prop :=
  exists i j, (i < j)%nat /\ nth_error l i = Some a /\ nth_error l j = Some b.

(** What the grouping loops keep true of the groups built so far, [P] being
    the pairs the loops have looked at. *)
Definition groupsTrack (P : MirrorProps -> MirrorProps -> Prop)
    (groups : list (list MirrorProps)) : Prop :=
  (forall g, In g groups -> (2 <= List.length g)%nat)
  /\ (forall g m, In g groups -> In m g ->
        exists a b, P a b /\ areParallel a b = true /\ (m = a \/ m = b)
                    /\ includes g a = true /\ includes g b = true)
  /\ (forall a b, P a b -> areParallel a b = true ->
        exists g, In g groups /\ includes g a = true /\ includes g b = true).

(** The key an image is deduplicated by. *)
Definition imageKey (img : VirtualImage) : Key :=
  (Math_round (x (v_position img)), Math_round (y (v_position img)),
   v_order img).

(** What the reflection loop keeps true of the images accepted so far, up to
    depth [k], for an object of size [os]. *)
Definition imagesOk (os : R) (mirrors : list MirrorProps) (k : Z)
    (rs : list VirtualImage) : Prop :=
  NoDup (map imageKey rs)
  /\ (forall img, In img rs ->
        (1 <= v_order img <= k)%Z /\ v_size img = os
        /\ In (v_sourceMirror img) mirrors)
  /\ (forall img, In img rs -> (1 < v_order img)%Z ->
        exists prev, In prev rs /\ v_order prev = (v_order img - 1)%Z
                     /\ same_mirror (v_sourceMirror prev) (v_sourceMirror img)
                        = false).

(** A seed of depth [k]: the object itself at depth 1, afterwards an accepted
    image of depth [k - 1] remembered with its source mirror. *)
Definition seedOk (os : R) (k : Z) (rs : list VirtualImage)
    (vo : VirtualObject) : Prop :=
  o_size (vo_sourceObject vo) = os
  /\ ((k = 1%Z /\ vo_sourceMirror vo = None)
      \/ exists prev, In prev rs /\ v_order prev = (k - 1)%Z
                      /\ vo_sourceMirror vo = Some (v_sourceMirror prev)).

(** The state of one pass at depth [k]. *)
Definition passOk (os : R) (mirrors : list MirrorProps) (k : Z)
    (st : PassState) : Prop :=
  imageMap st = map imageKey (results st)
  /\ imagesOk os mirrors k (results st)
  /\ forall vo, In vo (newVirtualObjects st) ->
       seedOk os (k + 1) (results st) vo.


(** The colour [drawPath] strokes with. *)
Definition strokeColor (color : option string) : string :=
  match color with Some c => c | None => "#ff00ff"%string end.

(** The strokes of one ray: all of one colour, the second one dashed and no
    other. *)
Definition rayStrokes (color : option string) (more : list Stroke) : Prop :=
  Forall (fun s => s_color s = strokeColor color) more
  /\ (more = []
      \/ exists a b rest,
           more = a :: b :: rest /\ s_dashed a = false /\ s_dashed b = true
           /\ Forall (fun s => s_dashed s = false) rest).

(** The mirror image of a point in the plane of [mirror]. *)
Definition reflectPoint (mirror : MirrorProps) (p : Point) : Point :=
  v_position (calculateVirtualImagePosition (mkObject p 0 0) mirror).

(** The rotations the application gives its mirrors, in order. *)
Definition appRotations : list R := [180; 180; 90].

(** At most three mirrors, with the application's rotations. *)
Definition rotationsOk (mirrors : list MirrorProps) : Prop :=
  (List.length mirrors <= 3)%nat
  /\ map m_rotation mirrors = firstn (List.length mirrors) appRotations.

(** * Properties *)

(** ** Comparisons and rounding *)

Lemma Rltb_true (a b : R) : Rltb a b = true <-> a < b.
Proof. unfold Rltb; destruct (Rlt_dec a b); split; intros; try easy. Qed.

Lemma Rltb_false (a b : R) : Rltb a b = false <-> b <= a.
Proof.
  unfold Rltb; destruct (Rlt_dec a b); split; intros; try easy; lra.
Qed.

Lemma Rgtb_true (a b : R) : Rgtb a b = true <-> a > b.
Proof. unfold Rgtb; rewrite Rltb_true; lra. Qed.

Lemma Rgtb_false (a b : R) : Rgtb a b = false <-> a <= b.
Proof. unfold Rgtb; rewrite Rltb_false; lra. Qed.

Lemma Int_part_eq (r : R) (z : Z) : IZR z <= r < IZR z + 1 -> Int_part r = z.
Proof. intros H; symmetry; apply Int_part_spec; lra. Qed.

Lemma Math_round_eq (r : R) (z : Z) :
  IZR z - / 2 <= r < IZR z + / 2 -> Math_round r = z.
Proof. intros H; unfold Math_round; apply Int_part_eq; lra. Qed.

Lemma Math_round_bounds (r : R) :
  IZR (Math_round r) - / 2 <= r < IZR (Math_round r) + / 2.
Proof.
  unfold Math_round.
  destruct (base_Int_part (r + / 2)) as [H1 H2]; lra.
Qed.

(** Points at least one unit apart on an axis never share a rounded
    coordinate. *)
Lemma Math_round_apart (a b : R) : a + 1 <= b -> Math_round a <> Math_round b.
Proof.
  intros H E.
  pose proof (Math_round_bounds a) as Ha.
  pose proof (Math_round_bounds b) as Hb.
  rewrite E in Ha; lra.
Qed.

Lemma Rtrunc_nonneg (r : R) (z : Z) : 0 <= r -> IZR z <= r < IZR z + 1 -> Rtrunc r = z.
Proof.
  intros H0 H; unfold Rtrunc; destruct (Rle_dec 0 r); [|lra].
  now apply Int_part_eq.
Qed.

Lemma Rtrunc_neg (r : R) (z : Z) : r < 0 -> IZR z - 1 < r <= IZR z -> Rtrunc r = z.
Proof.
  intros H0 H; unfold Rtrunc; destruct (Rle_dec 0 r); [lra|].
  rewrite (Int_part_eq (- r) (- z)); [lia|].
  rewrite opp_IZR; lra.
Qed.

(** ** Degrees *)

Lemma radians_0 : (0 * PI) / 180 = 0.
Proof. lra. Qed.

Lemma radians_180 : (180 * PI) / 180 = PI.
Proof. lra. Qed.

(** The normal of a mirror is a unit vector. *)
Lemma normal_unit (mirror : MirrorProps) :
  x (getMirrorNormal mirror) * x (getMirrorNormal mirror)
  + y (getMirrorNormal mirror) * y (getMirrorNormal mirror) = 1.
Proof.
  unfold getMirrorNormal; cbn [x y].
  pose proof (sin2_cos2 (m_rotation mirror * PI / 180)) as H.
  unfold Rsqr in H; lra.
Qed.

(** ** Segment intersection (C6) *)

Lemma lineIntersection_None (p1 p2 p3 p4 : Point) :
  lineIntersection p1 p2 p3 p4 = None <-> noIntersection p1 p2 p3 p4.
Proof.
  unfold lineIntersection, noIntersection.
  destruct (Rltb (Rabs (denomOf p1 p2 p3 p4)) (1 / 10000)) eqn:Hd.
  - apply Rltb_true in Hd; tauto.
  - apply Rltb_false in Hd.
    destruct (Rltb (uaOf p1 p2 p3 p4) 0) eqn:H1; cbn [orb].
    { apply Rltb_true in H1; tauto. }
    destruct (Rgtb (uaOf p1 p2 p3 p4) 1) eqn:H2; cbn [orb].
    { apply Rgtb_true in H2; tauto. }
    destruct (Rltb (ubOf p1 p2 p3 p4) 0) eqn:H3; cbn [orb].
    { apply Rltb_true in H3; tauto. }
    destruct (Rgtb (ubOf p1 p2 p3 p4) 1) eqn:H4.
    { apply Rgtb_true in H4; tauto. }
    apply Rltb_false in H1, H3. apply Rgtb_false in H2, H4.
    split; [discriminate|]. intros H; exfalso; lra.
Qed.

Lemma lineIntersection_Some (p1 p2 p3 p4 : Point) :
  ~ noIntersection p1 p2 p3 p4 ->
  lineIntersection p1 p2 p3 p4 =
    Some (mkPoint (x p1 + uaOf p1 p2 p3 p4 * (x p2 - x p1))
                  (y p1 + uaOf p1 p2 p3 p4 * (y p2 - y p1))).
Proof.
  intros H.
  destruct (lineIntersection p1 p2 p3 p4) eqn:E.
  - revert E; unfold lineIntersection.
    destruct (Rltb _ _); [discriminate|].
    destruct (_ || _); [discriminate|]. now intros [= <-].
  - apply lineIntersection_None in E; contradiction.
Qed.

Lemma denom_nonzero (p1 p2 p3 p4 : Point) :
  ~ Rabs (denomOf p1 p2 p3 p4) < 1 / 10000 -> denomOf p1 p2 p3 p4 <> 0.
Proof.
  intros H E; apply H; rewrite E, Rabs_R0; lra.
Qed.

(** The interpolated point is the same whether it is taken along [p1 p2] at
    [ua] or along [p3 p4] at [ub]. *)
Lemma intersection_on_second (p1 p2 p3 p4 : Point) :
  denomOf p1 p2 p3 p4 <> 0 ->
  x p1 + uaOf p1 p2 p3 p4 * (x p2 - x p1)
    = x p3 + ubOf p1 p2 p3 p4 * (x p4 - x p3)
  /\ y p1 + uaOf p1 p2 p3 p4 * (y p2 - y p1)
    = y p3 + ubOf p1 p2 p3 p4 * (y p4 - y p3).
Proof.
  intros H; unfold uaOf, ubOf.
  set (d := denomOf p1 p2 p3 p4) in *.
  assert (Hd : d = (y p4 - y p3) * (x p2 - x p1) - (x p4 - x p3) * (y p2 - y p1))
    by reflexivity.
  clearbody d.
  split; apply Rminus_diag_uniq; field_simplify; try assumption;
    rewrite Hd; field; rewrite <- Hd; assumption.
Qed.

(** C6: [lineIntersection] returns [null] exactly when [|denom| < 1e-4] or
    one of [ua], [ub] is outside [[0, 1]]; otherwise it returns the point
    [p1 + ua * (p2 - p1)], which lies on the segment [p1 p2] (at [ua]) and on
    the segment [p3 p4] (at [ub]). *)
Theorem lineIntersection_spec (p1 p2 p3 p4 : Point) :
  (lineIntersection p1 p2 p3 p4 = None <-> noIntersection p1 p2 p3 p4)
  /\ (~ noIntersection p1 p2 p3 p4 ->
      let q := mkPoint (x p1 + uaOf p1 p2 p3 p4 * (x p2 - x p1))
                       (y p1 + uaOf p1 p2 p3 p4 * (y p2 - y p1)) in
      lineIntersection p1 p2 p3 p4 = Some q
      /\ onSegmentAt q p1 p2 (uaOf p1 p2 p3 p4)
      /\ onSegmentAt q p3 p4 (ubOf p1 p2 p3 p4)).
Proof.
  split; [apply lineIntersection_None|].
  intros H q. split; [now apply lineIntersection_Some|].
  assert (Hd : denomOf p1 p2 p3 p4 <> 0).
  { apply denom_nonzero; unfold noIntersection in H; tauto. }
  destruct (intersection_on_second p1 p2 p3 p4 Hd) as [Hx Hy].
  unfold noIntersection in H.
  unfold onSegmentAt, q; cbn [x y].
  repeat split; try assumption; try reflexivity; lra.
Qed.

(** The crossing diagonals [(0,0)-(10,10)] and [(0,10)-(10,0)] meet at
    [(5,5)]. *)
Lemma lineIntersection_spec_witness :
  lineIntersection (mkPoint 0 0) (mkPoint 10 10) (mkPoint 0 10) (mkPoint 10 0)
  = Some (mkPoint 5 5).
Proof.
  pose (p1 := mkPoint 0 0). pose (p2 := mkPoint 10 10).
  pose (p3 := mkPoint 0 10). pose (p4 := mkPoint 10 0).
  assert (Hd : denomOf p1 p2 p3 p4 = -200) by (unfold denomOf; cbn; lra).
  assert (Ha : uaOf p1 p2 p3 p4 = / 2) by (unfold uaOf; rewrite Hd; cbn; lra).
  assert (Hb : ubOf p1 p2 p3 p4 = / 2) by (unfold ubOf; rewrite Hd; cbn; lra).
  assert (Hn : ~ noIntersection p1 p2 p3 p4).
  { unfold noIntersection; rewrite Hd, Ha, Hb.
    rewrite Rabs_left by lra. lra. }
  destruct (lineIntersection_spec p1 p2 p3 p4) as [_ H].
  destruct (H Hn) as [E _].
  fold p1 p2 p3 p4. rewrite E, Ha. cbn. f_equal. f_equal; lra.
Defined.

(** ** Fewer than two mirrors (C10) *)

(** C10: with fewer than two mirrors [calculateParallelMirrorImages] returns
    the empty list, whatever the object and [maxReflections]. *)
Theorem calculateParallelMirrorImages_few (object : ObjectProps)
    (mirrors : list MirrorProps) (maxReflections : Z) :
  (List.length mirrors < 2)%nat ->
  calculateParallelMirrorImages object mirrors maxReflections = [].
Proof.
  intros H; unfold calculateParallelMirrorImages.
  apply Nat.ltb_lt in H. now rewrite H.
Qed.

(** ** Reflection is an involution (C4) *)

(** C4: the image of the image of an object in the same mirror is at the
    object's own position. *)
Theorem reflection_involution (object : ObjectProps) (mirror : MirrorProps) :
  v_position
    (calculateVirtualImagePosition
       (asObject (calculateVirtualImagePosition object mirror)) mirror)
  = o_position object.
Proof.
  pose proof (normal_unit mirror) as Hn.
  unfold calculateVirtualImagePosition, asObject, dotProduct, subtractVectors.
  cbn [v_position o_position x y].
  set (n := getMirrorNormal mirror) in *.
  destruct (o_position object) as [ox oy], (m_position mirror) as [mx my].
  cbn [x y].
  set (d := (ox - mx) * x n + (oy - my) * y n).
  assert (Hd : (ox - 2 * d * x n - mx) * x n + (oy - 2 * d * y n - my) * y n = - d).
  { unfold d.
    replace ((ox - 2 * ((ox - mx) * x n + (oy - my) * y n) * x n - mx) * x n
             + (oy - 2 * ((ox - mx) * x n + (oy - my) * y n) * y n - my) * y n)
      with (((ox - mx) * x n + (oy - my) * y n)
            * (1 - 2 * (x n * x n + y n * y n))) by ring.
    rewrite Hn; ring. }
  rewrite Hd. f_equal; ring.
Qed.

(** ** Visibility (C3) *)

Lemma isDirectlyVisible_true (from to : Point) (mirrors : list MirrorProps) :
  isDirectlyVisible from to mirrors = true
  <-> forall m, In m mirrors -> ~ blockedBy from to m.
Proof.
  unfold blockedBy.
  induction mirrors as [|m rest IH]; cbn [isDirectlyVisible].
  - split; [intros _ m []|reflexivity].
  - destruct (getMirrorEndpoints m) as [s e] eqn:E.
    destruct (lineIntersection from to s e) eqn:L; cbn [truthy].
    + split; [discriminate|]. intros H; exfalso.
      apply (H m (or_introl eq_refl)). rewrite E; cbn [fst snd].
      rewrite L; discriminate.
    + rewrite IH. split.
      * intros H m' [<-|Hin]; [|now apply H].
        rewrite E; cbn [fst snd]. intros C; now apply C.
      * intros H m' Hin; apply H; now right.
Qed.

Lemma isDirectlyVisible_others (from to : Point) (mirrors : list MirrorProps)
    (mirror : MirrorProps) :
  isDirectlyVisible from to
    (filter (fun m => negb (same_mirror m mirror)) mirrors) = true
  <-> forall m, In m mirrors -> same_mirror m mirror = false ->
                ~ blockedBy from to m.
Proof.
  rewrite isDirectlyVisible_true. split.
  - intros H m Hin Hne. apply H. apply filter_In. split; [assumption|].
    now rewrite Hne.
  - intros H m Hin. apply filter_In in Hin as [Hin Hne].
    apply H; [assumption|]. now apply negb_true_iff in Hne.
Qed.

(** C3: [isImageVisible] is true exactly when some observer of the list is on
    the side of [mirror]'s plane opposite to the image (the product of the two
    signed sides is negative) and the segment from that observer to the image
    meets no mirror of the list other than [mirror]; with no observer it is
    false. *)
Theorem isImageVisible_spec (observers : list ObserverProps)
    (mirrors : list MirrorProps) (virtualPos : Point) (mirror : MirrorProps) :
  (isImageVisible observers mirrors virtualPos mirror = true
   <-> exists observer, In observer observers
                        /\ seesImage observer mirrors virtualPos mirror)
  /\ isImageVisible [] mirrors virtualPos mirror = false.
Proof.
  split; [|reflexivity].
  unfold seesImage, sideOf.
  induction observers as [|o rest IH]; cbn [isImageVisible].
  - split; [discriminate|]. now intros [o [[] _]].
  - destruct (Rltb _ 0) eqn:Hs; cbn [andb].
    + destruct (isDirectlyVisible _ _ _) eqn:Hv.
      * split; [intros _|reflexivity]. exists o. split; [now left|].
        apply Rltb_true in Hs. split; [exact Hs|].
        now apply isDirectlyVisible_others.
      * rewrite IH. split.
        -- intros [o' [Hin H]]. exists o'. split; [now right|exact H].
        -- intros [o' [[<-|Hin] [Hside H]]].
           ++ apply isDirectlyVisible_others in H. congruence.
           ++ exists o'. now split.
    + rewrite IH. apply Rltb_false in Hs. split.
      * intros [o' [Hin H]]. exists o'. split; [now right|exact H].
      * intros [o' [[<-|Hin] [Hside H]]]; [lra|].
        exists o'. now split.
Qed.

(** ** The remainder operator and the reflected direction (C5) *)

Lemma js_rem_nonneg (a b : R) : 0 < b -> 0 <= a -> 0 <= js_rem a b < b.
Proof.
  intros Hb Ha. unfold js_rem, Rtrunc.
  assert (Hr : 0 <= a / b) by (apply Rmult_le_pos; [lra|left; now apply Rinv_0_lt_compat]).
  destruct (Rle_dec 0 (a / b)) as [_|?]; [|lra].
  destruct (base_Int_part (a / b)) as [H1 H2].
  assert (E : a = a / b * b) by (field; lra).
  set (q := IZR (Int_part (a / b))) in *. set (r := a / b) in *.
  clearbody q r. subst a. nra.
Qed.

Lemma js_rem_neg (a b : R) : 0 < b -> a < 0 -> - b < js_rem a b <= 0.
Proof.
  intros Hb Ha. unfold js_rem, Rtrunc.
  assert (Hr : a / b < 0).
  { pose proof (Rinv_0_lt_compat b Hb) as Hi. unfold Rdiv. nra. }
  destruct (Rle_dec 0 (a / b)) as [?|_]; [lra|].
  destruct (base_Int_part (- (a / b))) as [H1 H2].
  rewrite opp_IZR.
  assert (E : a = a / b * b) by (field; lra).
  set (q := IZR (Int_part (- (a / b)))) in *. set (r := a / b) in *.
  clearbody q r. subst a. nra.
Qed.

(** A dividend already in [(-b, b)] is returned unchanged. *)
Lemma js_rem_small (a b : R) : 0 < b -> - b < a < b -> js_rem a b = a.
Proof.
  intros Hb Ha. unfold js_rem.
  assert (E : a = a / b * b) by (field; lra).
  assert (Hr : -1 < a / b < 1).
  { set (r := a / b) in *. clearbody r. rewrite E in Ha. nra. }
  replace (Rtrunc (a / b)) with 0%Z; [lra|].
  symmetry. destruct (Rle_dec 0 (a / b)).
  - apply Rtrunc_nonneg; [assumption|]. cbn; lra.
  - apply Rtrunc_neg; [lra|]. cbn; lra.
Qed.

Lemma js_rem_self (b : R) : 0 < b -> js_rem b b = 0.
Proof.
  intros Hb. unfold js_rem.
  replace (b / b) with 1 by (field; lra).
  rewrite (Rtrunc_nonneg 1 1); [lra|lra|cbn; lra].
Qed.

(** The mirror's rotation is brought into [[0, 360)]. *)
Lemma normalizedMirrorAngle_range (mirror : MirrorProps) :
  0 <= normalizedMirrorAngle mirror < 360.
Proof.
  unfold normalizedMirrorAngle.
  set (a := m_rotation mirror * PI / 180 * 180 / PI).
  apply js_rem_nonneg; [lra|].
  destruct (Rle_dec 0 a) as [H|H].
  - pose proof (js_rem_nonneg a 360 ltac:(lra) H). lra.
  - pose proof (js_rem_neg a 360 ltac:(lra) ltac:(lra)). lra.
Qed.

Lemma normalizedMirrorAngle_0 (mirror : MirrorProps) :
  m_rotation mirror = 0 -> normalizedMirrorAngle mirror = 0.
Proof.
  intros H. unfold normalizedMirrorAngle. rewrite H.
  replace (0 * PI / 180 * 180 / PI) with 0
    by (field; apply PI_neq0).
  rewrite (js_rem_small 0 360) by lra.
  replace (0 + 360) with 360 by lra. apply js_rem_self; lra.
Qed.

(** What [calculateVirtualImagePosition] does return besides the position:
    the direction is the remainder, with the sign of the dividend, of
    [2 * normalizedMirrorAngle - direction + 180] by 360 and so lies strictly
    between -360 and 360; order, size and source mirror are as documented. *)
Lemma calculateVirtualImagePosition_fields (object : ObjectProps)
    (mirror : MirrorProps) :
  let image := calculateVirtualImagePosition object mirror in
  v_direction image
    = js_rem (2 * normalizedMirrorAngle mirror - o_direction object + 180) 360
  /\ -360 < v_direction image < 360
  /\ v_order image = 1%Z
  /\ v_size image = o_size object
  /\ v_sourceMirror image = mirror.
Proof.
  cbn. repeat split; try reflexivity.
  - set (a := 2 * normalizedMirrorAngle mirror - o_direction object + 180).
    destruct (Rle_dec 0 a) as [H|H].
    + pose proof (js_rem_nonneg a 360 ltac:(lra) H). lra.
    + pose proof (js_rem_neg a 360 ltac:(lra) ltac:(lra)). lra.
  - set (a := 2 * normalizedMirrorAngle mirror - o_direction object + 180).
    destruct (Rle_dec 0 a) as [H|H].
    + pose proof (js_rem_nonneg a 360 ltac:(lra) H). lra.
    + pose proof (js_rem_neg a 360 ltac:(lra) ltac:(lra)). lra.
Qed.

(** C5 at a failing input: an object facing 270 degrees, reflected in a mirror
    of rotation 0, gets the direction -90, which is outside [[0, 360)]. *)
Theorem reflected_direction_negative (p q : Point) (size w h : R) (r : nat) :
  let mirror := mkMirror r q w h 0 None None None in
  let image := calculateVirtualImagePosition (mkObject p size 270) mirror in
  v_direction image = -90 /\ ~ (0 <= v_direction image < 360).
Proof.
  intros mirror image.
  assert (E : v_direction image = -90).
  { unfold image, calculateVirtualImagePosition; cbn [v_direction o_direction].
    rewrite (normalizedMirrorAngle_0 mirror) by reflexivity.
    replace (2 * 0 - 270 + 180) with (-90) by lra.
    apply js_rem_small; lra. }
  split; [exact E|]. rewrite E. lra.
Qed.

(** ** Parallel mirrors *)

Lemma areParallel_cos (m1 m2 : MirrorProps) :
  areParallel m1 m2
  = Rgtb (Rabs (cos ((m_rotation m1 - m_rotation m2) * PI / 180))) (999 / 1000).
Proof.
  unfold areParallel, getMirrorNormal; cbn [x y].
  rewrite <- cos_minus. f_equal; [f_equal; f_equal|]; lra.
Qed.

Lemma areParallel_sym (m1 m2 : MirrorProps) :
  areParallel m1 m2 = areParallel m2 m1.
Proof.
  unfold areParallel. f_equal. f_equal. ring.
Qed.

Lemma areParallel_refl (m : MirrorProps) : areParallel m m = true.
Proof.
  rewrite areParallel_cos.
  replace ((m_rotation m - m_rotation m) * PI / 180) with 0 by lra.
  rewrite cos_0, Rabs_R1. apply Rgtb_true. lra.
Qed.

Lemma PI_gt_3 : 3 < PI.
Proof. pose proof PI2_3_2. lra. Qed.

(** Two terms, resp. three terms, of the cosine series. *)
Lemma cos_series_bounds (a : R) :
  0 <= a <= 1 ->
  1 - a * a / 2 <= cos a <= 1 - a * a / 2 + a * a * a * a / 24.
Proof.
  intros Ha.
  pose proof PI_gt_3 as Hpi.
  destruct (cos_bound a 0) as [H1 H2]; [lra|lra|].
  unfold cos_approx, cos_term in H1, H2.
  cbn [Nat.mul Nat.add sum_f_R0 pow fact] in H1, H2.
  cbn [INR Nat.add Nat.mul] in H1, H2.
  split.
  - eapply Rle_trans; [|exact H1]. right. field.
  - eapply Rle_trans; [exact H2|]. right. field.
Qed.

(** Mirrors whose rotations differ by 2 degrees count as parallel, by 4 or 6
    degrees they do not. *)
Lemma areParallel_degrees (m1 m2 : MirrorProps) (delta : R) :
  Rabs (m_rotation m1 - m_rotation m2) = delta ->
  (delta = 0 \/ delta = 2 -> areParallel m1 m2 = true)
  /\ (delta = 4 \/ delta = 6 -> areParallel m1 m2 = false).
Proof.
  intros Hd. rewrite areParallel_cos.
  pose proof PI_gt_3 as Hpi. pose proof PI_4 as Hpi4.
  assert (Hc : cos ((m_rotation m1 - m_rotation m2) * PI / 180)
               = cos (delta * PI / 180)).
  { subst delta. unfold Rabs. destruct (Rcase_abs _); [|reflexivity].
    rewrite <- cos_neg. f_equal. lra. }
  rewrite Hc.
  split; intros [->| ->].
  - replace (0 * PI / 180) with 0 by lra.
    rewrite cos_0, Rabs_R1. apply Rgtb_true. lra.
  - apply Rgtb_true.
    destruct (cos_series_bounds (2 * PI / 180)) as [H1 _]; [lra|].
    set (a := 2 * PI / 180) in *.
    assert (Ha : 0 <= a <= 2 / 45) by (unfold a; lra). clearbody a.
    assert (Hs : a * a <= 2 / 45 * (2 / 45)) by nra.
    rewrite Rabs_right by lra. lra.
  - apply Rgtb_false.
    destruct (cos_series_bounds (4 * PI / 180)) as [H1 H2]; [lra|].
    set (a := 4 * PI / 180) in *.
    assert (Ha : 1 / 15 <= a <= 1 / 10) by (unfold a; lra). clearbody a.
    assert (Hs : 1 / 15 * (1 / 15) <= a * a <= 1 / 10 * (1 / 10)) by nra.
    assert (Hq : a * a * a * a <= 1 / 10000) by nra.
    rewrite Rabs_right by lra. lra.
  - apply Rgtb_false.
    destruct (cos_series_bounds (6 * PI / 180)) as [H1 H2]; [lra|].
    set (a := 6 * PI / 180) in *.
    assert (Ha : 1 / 10 <= a <= 2 / 15) by (unfold a; lra). clearbody a.
    assert (Hs : 1 / 10 * (1 / 10) <= a * a <= 2 / 15 * (2 / 15)) by nra.
    assert (Hq : a * a * a * a <= 1 / 1000) by nra.
    rewrite Rabs_right by lra. lra.
Qed.

(** Half a turn apart is parallel, a quarter turn apart is not. *)
Lemma areParallel_turns (m1 m2 : MirrorProps) (delta : R) :
  Rabs (m_rotation m1 - m_rotation m2) = delta ->
  (delta = 180 -> areParallel m1 m2 = true)
  /\ (delta = 90 -> areParallel m1 m2 = false).
Proof.
  intros Hd. rewrite areParallel_cos.
  assert (Hc : cos ((m_rotation m1 - m_rotation m2) * PI / 180)
               = cos (delta * PI / 180)).
  { subst delta. unfold Rabs. destruct (Rcase_abs _); [|reflexivity].
    rewrite <- cos_neg. f_equal. lra. }
  rewrite Hc. split; intros ->.
  - replace (180 * PI / 180) with PI by lra.
    rewrite cos_PI, Rabs_left by lra. apply Rgtb_true. lra.
  - replace (90 * PI / 180) with (PI / 2) by lra.
    rewrite cos_PI2, Rabs_R0. apply Rgtb_false. lra.
Qed.

(** ** Grouping: membership tests *)

Lemma same_mirror_refl (m : MirrorProps) : same_mirror m m = true.
Proof. apply Nat.eqb_refl. Qed.

Lemma includes_app (g h : list MirrorProps) (m : MirrorProps) :
  includes (g ++ h) m = includes g m || includes h m.
Proof. apply existsb_app. Qed.

Lemma pushIfMissing_present (g : list MirrorProps) (m : MirrorProps) :
  includes g m = true -> pushIfMissing g m = g.
Proof. intros H; unfold pushIfMissing; now rewrite H. Qed.

Lemma includes_pushed (g : list MirrorProps) (m : MirrorProps) :
  includes (pushIfMissing g m) m = true.
Proof.
  unfold pushIfMissing. destruct (includes g m) eqn:E; [exact E|].
  rewrite includes_app. cbn. rewrite same_mirror_refl.
  now rewrite orb_true_r.
Qed.

Lemma includes_push_mono (g : list MirrorProps) (m m' : MirrorProps) :
  includes g m' = true -> includes (pushIfMissing g m) m' = true.
Proof.
  intros H. unfold pushIfMissing. destruct (includes g m); [exact H|].
  rewrite includes_app, H. reflexivity.
Qed.

Lemma groupPair_parallel (mi mj : MirrorProps) (groups : list (list MirrorProps)) :
  areParallel mi mj = true ->
  groupPair mi groups mj =
    match mergeIntoGroups mi mj groups with
    | Some groups' => groups'
    | None => groups ++ [[mi; mj]]
    end.
Proof. intros H; unfold groupPair; now rewrite H. Qed.

Lemma groupPair_skew (mi mj : MirrorProps) (groups : list (list MirrorProps)) :
  areParallel mi mj = false -> groupPair mi groups mj = groups.
Proof. intros H; unfold groupPair; now rewrite H. Qed.

(** ** Three mutually parallel mirrors (C8) *)

(** C8: three mutually parallel mirrors end up in exactly one group, which
    holds all three; when the three are distinct objects the group is the
    list itself. *)
Theorem three_parallel_one_group (a b c : MirrorProps) :
  areParallel a b = true -> areParallel a c = true -> areParallel b c = true ->
  exists group,
    findParallelMirrorGroups [a; b; c] = [group]
    /\ includes group a = true /\ includes group b = true
    /\ includes group c = true
    /\ (same_mirror a c = false -> same_mirror b c = false ->
        group = [a; b; c]).
Proof.
  intros Hab Hac Hbc.
  exists (pushIfMissing [a; b] c).
  assert (Ia : includes [a; b] a = true)
    by (cbn; now rewrite same_mirror_refl).
  assert (Ib : includes [a; b] b = true)
    by (cbn; rewrite same_mirror_refl; now rewrite !orb_true_r).
  repeat split.
  - unfold findParallelMirrorGroups. cbn [groupLoop fold_left].
    rewrite (groupPair_parallel a b) by assumption. cbn [mergeIntoGroups app].
    rewrite (groupPair_parallel a c) by assumption. cbn [mergeIntoGroups].
    rewrite Ia. cbn [orb]. rewrite (pushIfMissing_present [a; b] a Ia).
    rewrite (groupPair_parallel b c) by assumption. cbn [mergeIntoGroups].
    rewrite (includes_push_mono [a; b] c b Ib). cbn [orb].
    rewrite (pushIfMissing_present _ b (includes_push_mono [a; b] c b Ib)).
    now rewrite (pushIfMissing_present _ c (includes_pushed [a; b] c)).
  - now apply includes_push_mono.
  - now apply includes_push_mono.
  - apply includes_pushed.
  - intros Hca Hcb. unfold pushIfMissing. cbn [includes existsb].
    now rewrite Hca, Hcb.
Qed.

(** Mirrors at rotations 0, 180 and 0 are mutually parallel and form one
    group. *)
Lemma three_parallel_one_group_witness :
  exists group,
    findParallelMirrorGroups
      [plainMirror 0 0; plainMirror 1 180; plainMirror 2 0] = [group]
    /\ includes group (plainMirror 0 0) = true
    /\ includes group (plainMirror 1 180) = true
    /\ includes group (plainMirror 2 0) = true.
Proof.
  assert (H180 : forall m1 m2, Rabs (m_rotation m1 - m_rotation m2) = 180 ->
                               areParallel m1 m2 = true)
    by (intros m1 m2 H; now apply (areParallel_turns m1 m2 180)).
  destruct (three_parallel_one_group
              (plainMirror 0 0) (plainMirror 1 180) (plainMirror 2 0))
    as [group [E [Ia [Ib [Ic _]]]]].
  - apply H180. cbn. replace (0 - 180) with (-180) by lra.
    rewrite Rabs_left; lra.
  - rewrite areParallel_cos. cbn [m_rotation plainMirror].
    replace ((0 - 0) * PI / 180) with 0 by lra.
    rewrite cos_0, Rabs_R1. apply Rgtb_true. lra.
  - apply H180. cbn. replace (180 - 0) with 180 by lra.
    rewrite Rabs_right; lra.
  - exists group. repeat split; assumption.
Defined.

(** ** Grouping is not a partition in general (C7, as stated) *)

Lemma plainMirror_parallel (r1 r2 : nat) (a1 a2 delta : R) :
  Rabs (a1 - a2) = delta ->
  (delta = 0 \/ delta = 2 ->
   areParallel (plainMirror r1 a1) (plainMirror r2 a2) = true)
  /\ (delta = 4 \/ delta = 6 ->
      areParallel (plainMirror r1 a1) (plainMirror r2 a2) = false).
Proof. intros H. now apply areParallel_degrees. Qed.

Lemma skewScene_groups :
  findParallelMirrorGroups skewScene
  = [[plainMirror 0 0; plainMirror 3 2; plainMirror 1 4];
     [plainMirror 1 4; plainMirror 2 6]].
Proof.
  assert (H04 : areParallel (plainMirror 0 0) (plainMirror 1 4) = false).
  { apply (plainMirror_parallel 0 1 0 4 4); [|now left].
    replace (0 - 4) with (-4) by lra. rewrite Rabs_left; lra. }
  assert (H06 : areParallel (plainMirror 0 0) (plainMirror 2 6) = false).
  { apply (plainMirror_parallel 0 2 0 6 6); [|now right].
    replace (0 - 6) with (-6) by lra. rewrite Rabs_left; lra. }
  assert (H02 : areParallel (plainMirror 0 0) (plainMirror 3 2) = true).
  { apply (plainMirror_parallel 0 3 0 2 2); [|now right].
    replace (0 - 2) with (-2) by lra. rewrite Rabs_left; lra. }
  assert (H46 : areParallel (plainMirror 1 4) (plainMirror 2 6) = true).
  { apply (plainMirror_parallel 1 2 4 6 2); [|now right].
    replace (4 - 6) with (-2) by lra. rewrite Rabs_left; lra. }
  assert (H42 : areParallel (plainMirror 1 4) (plainMirror 3 2) = true).
  { apply (plainMirror_parallel 1 3 4 2 2); [|now right].
    replace (4 - 2) with 2 by lra. rewrite Rabs_right; lra. }
  assert (H62 : areParallel (plainMirror 2 6) (plainMirror 3 2) = false).
  { apply (plainMirror_parallel 2 3 6 2 4); [|now left].
    replace (6 - 2) with 4 by lra. rewrite Rabs_right; lra. }
  unfold findParallelMirrorGroups, skewScene. cbn [groupLoop fold_left].
  rewrite (groupPair_skew _ _ _ H04), (groupPair_skew _ _ _ H06).
  rewrite (groupPair_parallel _ _ _ H02). cbn [mergeIntoGroups app].
  rewrite (groupPair_parallel _ _ _ H46).
  cbn [mergeIntoGroups includes existsb same_mirror m_ref plainMirror
       Nat.eqb orb option_map app].
  rewrite (groupPair_parallel _ _ _ H42).
  cbn [mergeIntoGroups includes existsb same_mirror m_ref plainMirror
       Nat.eqb orb option_map app pushIfMissing].
  now rewrite (groupPair_skew _ _ _ H62).
Qed.

(** C7 as stated fails: on [skewScene] the mirror at 4 degrees is put in both
    returned groups, and the first group holds the mirrors at 0 and at 4
    degrees, which are not parallel. *)
Lemma findParallelMirrorGroups_not_partition :
  ~ disjointGroups (findParallelMirrorGroups skewScene)
  /\ ~ parallelWithin (findParallelMirrorGroups skewScene).
Proof.
  rewrite skewScene_groups. split.
  - intros H.
    specialize (H 0%nat 1%nat _ _ ltac:(discriminate) eq_refl eq_refl
                  (plainMirror 1 4) (plainMirror 1 4)).
    cbn in H. assert (true = false) by (apply H; auto). discriminate.
  - intros H.
    specialize (H _ (plainMirror 0 0) (plainMirror 1 4) (or_introl eq_refl)).
    cbn [In] in H.
    assert (E : areParallel (plainMirror 0 0) (plainMirror 1 4) = true)
      by (apply H; auto).
    assert (F : areParallel (plainMirror 0 0) (plainMirror 1 4) = false).
    { apply (plainMirror_parallel 0 1 0 4 4); [|now left].
      replace (0 - 4) with (-4) by lra. rewrite Rabs_left; lra. }
    congruence.
Qed.

(** ** Grouping under a transitive parallelism (C7, amended) *)

Lemma skewTo_sym (g h : list MirrorProps) : skewTo g h -> skewTo h g.
Proof.
  intros H a b Ha Hb. rewrite areParallel_sym. now apply H.
Qed.

Lemma apartGroups_app (l1 l2 : list (list MirrorProps)) :
  apartGroups (l1 ++ l2)
  <-> apartGroups l1 /\ apartGroups l2
      /\ (forall g h, In g l1 -> In h l2 -> skewTo g h).
Proof.
  induction l1 as [|g l1 IH]; cbn [app apartGroups].
  - split; [intros H; repeat split; [exact H|intros g h []]|tauto].
  - rewrite IH. split.
    + intros [H1 [H2 [H3 H4]]]. repeat split; try assumption.
      * intros h Hh. apply H1. apply in_or_app. now left.
      * intros g' h [<-|Hg] Hh; [|now apply H4].
        apply H1. apply in_or_app. now right.
    + intros [[H1 H2] [H3 H4]]. repeat split; try assumption.
      * intros h Hh. apply in_app_or in Hh as [Hh|Hh]; [now apply H1|].
        apply H4; [now left|assumption].
      * intros g' h Hg Hh. apply H4; [now right|assumption].
Qed.

Lemma apartGroups_nth (groups : list (list MirrorProps)) :
  apartGroups groups ->
  forall i j g h, i <> j ->
    nth_error groups i = Some g -> nth_error groups j = Some h -> skewTo g h.
Proof.
  induction groups as [|g0 rest IH]; intros Hap i j g h Hij Hi Hj.
  - destruct i; discriminate.
  - destruct Hap as [H0 Hrest].
    destruct i as [|i], j as [|j]; cbn [nth_error] in Hi, Hj.
    + congruence.
    + injection Hi as <-. apply H0. eapply nth_error_In; eassumption.
    + injection Hj as <-. apply skewTo_sym, H0.
      eapply nth_error_In; eassumption.
    + apply (IH Hrest i j); [congruence|assumption|assumption].
Qed.

Lemma mergeIntoGroups_None (mi mj : MirrorProps) (groups : list (list MirrorProps)) :
  mergeIntoGroups mi mj groups = None ->
  forall g, In g groups -> includes g mi = false /\ includes g mj = false.
Proof.
  induction groups as [|g0 rest IH]; cbn [mergeIntoGroups]; intros H g Hg.
  - destruct Hg.
  - destruct (includes g0 mi || includes g0 mj) eqn:E; [discriminate|].
    destruct (mergeIntoGroups mi mj rest); [discriminate|].
    destruct Hg as [<-|Hg]; [now apply orb_false_elim|now apply IH].
Qed.

Lemma mergeIntoGroups_Some (mi mj : MirrorProps)
    (groups groups' : list (list MirrorProps)) :
  mergeIntoGroups mi mj groups = Some groups' ->
  exists l1 g l2,
    groups = l1 ++ g :: l2
    /\ groups' = l1 ++ pushIfMissing (pushIfMissing g mi) mj :: l2
    /\ includes g mi || includes g mj = true.
Proof.
  revert groups'.
  induction groups as [|g0 rest IH]; cbn [mergeIntoGroups]; intros groups' H.
  - discriminate.
  - destruct (includes g0 mi || includes g0 mj) eqn:E.
    + injection H as <-. now exists [], g0, rest.
    + destruct (mergeIntoGroups mi mj rest) as [rest'|]; [|discriminate].
      injection H as <-.
      destruct (IH rest' eq_refl) as [l1 [g [l2 [E1 [E2 E3]]]]].
      exists (g0 :: l1), g, l2. subst. now repeat split.
Qed.

Section TransitiveGrouping.

Variable mirrors : list MirrorProps.
Hypothesis refs_ok : consistentRefs mirrors.
Hypothesis par_trans : parallelTransitiveOn mirrors.

Lemma includes_In (g : list MirrorProps) (m : MirrorProps) :
  (forall a, In a g -> In a mirrors) -> In m mirrors ->
  (includes g m = true <-> In m g).
Proof.
  intros Hg Hm. unfold includes. rewrite existsb_exists. split.
  - intros [a [Ha E]]. apply Nat.eqb_eq in E.
    now rewrite <- (refs_ok a m (Hg a Ha) Hm E).
  - intros H. exists m. split; [assumption|apply same_mirror_refl].
Qed.

Lemma In_pushIfMissing (g : list MirrorProps) (m a : MirrorProps) :
  (forall b, In b g -> In b mirrors) -> In m mirrors ->
  (In a (pushIfMissing g m) <-> In a g \/ a = m).
Proof.
  intros Hg Hm. unfold pushIfMissing.
  destruct (includes g m) eqn:E.
  - apply (includes_In g m Hg Hm) in E. split; [now left|].
    intros [H| ->]; assumption.
  - rewrite in_app_iff. cbn [In]. intuition congruence.
Qed.

Lemma In_pushed_both (g : list MirrorProps) (mi mj a : MirrorProps) :
  (forall b, In b g -> In b mirrors) -> In mi mirrors -> In mj mirrors ->
  (In a (pushIfMissing (pushIfMissing g mi) mj)
   <-> In a g \/ a = mi \/ a = mj).
Proof.
  intros Hg Hi Hj.
  rewrite In_pushIfMissing; [|
    intros b Hb; apply (In_pushIfMissing g mi b Hg Hi) in Hb as [Hb| ->];
      [now apply Hg|assumption] | assumption].
  rewrite (In_pushIfMissing g mi a Hg Hi). tauto.
Qed.

(** Parallelism between mirrors of the list, used right to left. *)
Lemma par_via (a b c : MirrorProps) :
  In a mirrors -> In b mirrors -> In c mirrors ->
  areParallel a b = true -> areParallel c b = true ->
  areParallel a c = true.
Proof.
  intros Ha Hb Hc H1 H2. rewrite areParallel_sym in H2.
  exact (par_trans a b c Ha Hb Hc H1 H2).
Qed.

(** One iteration of the inner loop keeps the invariant and adds, when the
    pair is parallel, exactly the two mirrors of the pair. *)
Lemma groupPair_keeps (mi mj : MirrorProps) (groups : list (list MirrorProps)) :
  wellGrouped mirrors groups -> In mi mirrors -> In mj mirrors ->
  claimsIts groups mi ->
  wellGrouped mirrors (groupPair mi groups mj)
  /\ (forall a, memberOf (groupPair mi groups mj) a
                <-> memberOf groups a
                    \/ (areParallel mi mj = true /\ (a = mi \/ a = mj))).
Proof.
  intros [Hof [Hin Hap]] Hi Hj Hclaim.
  destruct (areParallel mi mj) eqn:Hpar.
  2:{ rewrite groupPair_skew by assumption. split; [now repeat split|].
      intros a. split; [now left|]. now intros [H|[H _]]. }
  assert (Hji : areParallel mj mi = true) by now rewrite areParallel_sym.
  rewrite groupPair_parallel by assumption.
  destruct (mergeIntoGroups mi mj groups) as [groups'|] eqn:Hm.
  - apply mergeIntoGroups_Some in Hm as [l1 [g [l2 [E1 [E2 Hinc]]]]].
    assert (Hg : In g groups) by (subst groups; apply in_elt).
    assert (Hgm : forall b, In b g -> In b mirrors)
      by (intros b Hb; now apply (Hof g)).
    set (g' := pushIfMissing (pushIfMissing g mi) mj) in *.
    assert (Hg' : forall a, In a g' <-> In a g \/ a = mi \/ a = mj)
      by (intros a; now apply In_pushed_both).
    (* the group found holds a mirror parallel to both of the pair *)
    assert (Hx : exists x0, In x0 g /\ In x0 mirrors
                            /\ areParallel x0 mi = true
                            /\ areParallel x0 mj = true).
    { apply orb_prop in Hinc as [H|H].
      - apply (includes_In g mi Hgm Hi) in H. exists mi.
        repeat split; try assumption. apply areParallel_refl.
      - apply (includes_In g mj Hgm Hj) in H. exists mj.
        repeat split; try assumption. apply areParallel_refl. }
    destruct Hx as [x0 [Hx0 [Hx0m [Hx0i Hx0j]]]].
    assert (Hg'm : forall a, In a g' -> In a mirrors).
    { intros a Ha. apply Hg' in Ha as [Ha|[->| ->]]; auto. }
    assert (Hg'x : forall a, In a g' -> areParallel a x0 = true).
    { intros a Ha. apply Hg' in Ha as [Ha|[->| ->]].
      - now apply (Hin g).
      - now rewrite areParallel_sym.
      - now rewrite areParallel_sym. }
    assert (Hgroups' : forall h, In h groups' <-> h = g' \/ In h (l1 ++ l2)).
    { intros h. subst groups'. rewrite !in_app_iff. cbn [In].
      intuition congruence. }
    assert (Hrest : forall h, In h (l1 ++ l2) -> In h groups).
    { intros h Hh. subst groups. rewrite in_app_iff in *. cbn [In]. tauto. }
    assert (Hskew : forall h, In h (l1 ++ l2) -> skewTo h g').
    { intros h Hh a b Ha Hb.
      assert (Hhg : skewTo h g).
      { subst groups. apply apartGroups_app in Hap as [_ [[H2 _] H3]].
        apply in_app_or in Hh as [Hh|Hh].
        - apply H3; [assumption|now left].
        - apply skewTo_sym. now apply H2. }
      destruct (areParallel a b) eqn:Hab; [|reflexivity].
      rewrite <- (Hhg a x0 Ha Hx0). symmetry.
      apply (par_trans a b x0); try assumption.
      - apply (Hof h); [now apply Hrest|assumption].
      - now apply Hg'm.
      - now apply Hg'x. }
    split; [split; [|split]|].
    + intros h m Hh Hm. apply Hgroups' in Hh as [->|Hh].
      * now apply Hg'm.
      * apply (Hof h); [now apply Hrest|assumption].
    + intros h a b Hh Ha Hb. apply Hgroups' in Hh as [->|Hh].
      * apply (par_via a x0 b); auto.
      * apply (Hin h); [now apply Hrest|assumption|assumption].
    + subst groups groups'.
      apply apartGroups_app in Hap as [H1 [[H2 H2'] H3]].
      apply apartGroups_app. split; [assumption|]. split; [split|].
      * intros h Hh. apply skewTo_sym, Hskew. apply in_or_app. now right.
      * assumption.
      * intros h1 h2 Hh1 [<-|Hh2].
        -- apply Hskew. apply in_or_app. now left.
        -- apply H3; [assumption|now right].
    + intros a. unfold memberOf. split.
      * intros [h [Hh Ha]]. apply Hgroups' in Hh as [->|Hh].
        -- apply Hg' in Ha as [Ha|Ha]; [left; now exists g|right; tauto].
        -- left. exists h. split; [now apply Hrest|assumption].
      * intros [[h [Hh Ha]]|[_ Ha]].
        -- subst groups. apply in_app_or in Hh as [Hh|[<-|Hh]].
           ++ exists h. split; [|assumption]. apply Hgroups'. right.
              apply in_or_app. now left.
           ++ exists g'. split; [apply Hgroups'; now left|].
              apply Hg'. now left.
           ++ exists h. split; [|assumption]. apply Hgroups'. right.
              apply in_or_app. now right.
        -- exists g'. split; [apply Hgroups'; now left|].
           apply Hg'. now right.
  - pose proof (mergeIntoGroups_None mi mj groups Hm) as Hnone.
    assert (Hfree : ~ memberOf groups mi).
    { intros [g [Hg Hig]]. destruct (Hnone g Hg) as [E _].
      apply (includes_In g mi) in Hig; [congruence| |assumption].
      intros b Hb. now apply (Hof g). }
    assert (Hnew : forall a, memberOf groups a -> areParallel a mi = false).
    { intros a Ha. destruct (areParallel a mi) eqn:E; [|reflexivity].
      exfalso. apply Hfree. now apply (Hclaim a). }
    split; [split; [|split]|].
    + intros h m Hh Hm'. apply in_app_or in Hh as [Hh|[<-|[]]].
      * now apply (Hof h).
      * destruct Hm' as [<-|[<-|[]]]; assumption.
    + intros h a b Hh Ha Hb. apply in_app_or in Hh as [Hh|[<-|[]]].
      * now apply (Hin h).
      * destruct Ha as [<-|[<-|[]]], Hb as [<-|[<-|[]]];
          try assumption; apply areParallel_refl.
    + apply apartGroups_app. split; [assumption|]. split.
      * cbn. split; [intros h []|exact I].
      * intros h h' Hh [<-|[]] a b Ha Hb.
        assert (Hmem : memberOf groups a) by now exists h.
        destruct Hb as [<-|[<-|[]]]; [now apply Hnew|].
        destruct (areParallel a mj) eqn:E; [|reflexivity].
        rewrite <- (Hnew a Hmem). symmetry.
        apply (par_trans a mj mi); try assumption.
        now apply (Hof h).
    + intros a. unfold memberOf. split.
      * intros [h [Hh Ha]]. apply in_app_or in Hh as [Hh|[<-|[]]].
        -- left. now exists h.
        -- right. split; [reflexivity|].
           destruct Ha as [<-|[<-|[]]]; auto.
      * intros [[h [Hh Ha]]|[_ Ha]].
        -- exists h. split; [apply in_or_app; now left|assumption].
        -- exists [mi; mj]. split; [apply in_or_app; right; now left|].
           cbn [In]. destruct Ha as [->| ->]; auto.
Qed.

(** The inner loop for [mirrors[i] = mi], run over [todo]. *)
Lemma innerLoop_keeps (mi : MirrorProps) (todo : list MirrorProps) :
  In mi mirrors -> incl todo mirrors ->
  forall groups,
    wellGrouped mirrors groups -> claimsIts groups mi ->
    wellGrouped mirrors (fold_left (groupPair mi) todo groups)
    /\ (forall a, memberOf (fold_left (groupPair mi) todo groups) a
                  <-> memberOf groups a
                      \/ exists mj, In mj todo /\ areParallel mi mj = true
                                    /\ (a = mi \/ a = mj)).
Proof.
  intros Hi. induction todo as [|mj todo IH]; intros Htodo groups Hwg Hclaim.
  - cbn [fold_left]. split; [assumption|].
    intros a. split; [now left|]. now intros [H|[mj [[] _]]].
  - cbn [fold_left].
    assert (Hj : In mj mirrors) by (apply Htodo; now left).
    destruct (groupPair_keeps mi mj groups Hwg Hi Hj Hclaim) as [Hwg1 Hmem1].
    assert (Hclaim1 : claimsIts (groupPair mi groups mj) mi).
    { intros a Ha Hpar. apply Hmem1. apply Hmem1 in Ha as [Ha|[Hp _]].
      - left. now apply (Hclaim a).
      - right. split; [assumption|now left]. }
    destruct (IH (fun m Hm => Htodo m (or_intror Hm)) _ Hwg1 Hclaim1)
      as [Hwg2 Hmem2].
    split; [assumption|].
    intros a. rewrite Hmem2, Hmem1. split.
    + intros [[H|[Hp Ha]]|[mj' [Hin [Hp Ha]]]].
      * now left.
      * right. exists mj. split; [now left|now split].
      * right. exists mj'. split; [now right|now split].
    + intros [H|[mj' [[<-|Hin] [Hp Ha]]]].
      * left. now left.
      * left. right. now split.
      * right. exists mj'. now repeat split.
Qed.

(** The outer loop over the mirrors still to be taken as [mirrors[i]]. *)
Lemma groupLoop_keeps (l : list MirrorProps) :
  incl l mirrors ->
  forall groups,
    wellGrouped mirrors groups ->
    (forall m, In m l -> claimsIts groups m) ->
    wellGrouped mirrors (groupLoop l groups).
Proof.
  induction l as [|mi rest IH]; intros Hl groups Hwg Hclaims.
  - exact Hwg.
  - cbn [groupLoop].
    assert (Hi : In mi mirrors) by (apply Hl; now left).
    assert (Hrest : incl rest mirrors) by (intros m Hm; apply Hl; now right).
    destruct (innerLoop_keeps mi rest Hi Hrest groups Hwg
                (Hclaims mi (or_introl eq_refl))) as [Hwg1 Hmem1].
    apply IH; [assumption|assumption|].
    intros m Hm a Ha Hpar. apply Hmem1.
    assert (Hmm : In m mirrors) by now apply Hrest.
    apply Hmem1 in Ha as [Ha|[mj [Hin [Hp Ha]]]].
    + left. apply (Hclaims m (or_intror Hm) a Ha Hpar).
    + right. exists m. split; [assumption|]. split; [|now right].
      assert (Hjm : In mj mirrors) by now apply Hrest.
      destruct Ha as [->| ->]; [assumption|].
      now apply (par_trans mi mj m).
Qed.

(** C7, amended: when [areParallel] is transitive on the mirrors of the
    list (a list of objects: entries with the same address are the same
    mirror), the returned groups are pairwise disjoint and any two mirrors of
    a group are parallel. *)
Theorem findParallelMirrorGroups_partition :
  disjointGroups (findParallelMirrorGroups mirrors)
  /\ parallelWithin (findParallelMirrorGroups mirrors).
Proof.
  assert (Hwg : wellGrouped mirrors (findParallelMirrorGroups mirrors)).
  { apply groupLoop_keeps.
    - intros m Hm; exact Hm.
    - repeat split; [intros g m []|intros g a b []].
    - intros m _ a [g [[] _]]. }
  destruct Hwg as [Hof [Hin Hap]]. split; [|assumption].
  intros i j g h Hij Hi Hj a b Ha Hb.
  destruct (same_mirror a b) eqn:E; [|reflexivity]. exfalso.
  assert (Ham : In a mirrors)
    by (apply (Hof g); [eapply nth_error_In; eassumption|assumption]).
  assert (Hbm : In b mirrors)
    by (apply (Hof h); [eapply nth_error_In; eassumption|assumption]).
  apply Nat.eqb_eq in E. apply (refs_ok a b Ham Hbm) in E. subst b.
  pose proof (apartGroups_nth _ Hap i j g h Hij Hi Hj a a Ha Hb) as Hs.
  rewrite areParallel_refl in Hs. discriminate.
Qed.

End TransitiveGrouping.

(** ** Images between two mirrors (C1) *)

Lemma key_eqb_depth (a b c a' b' c' : Z) :
  c <> c' -> key_eqb (a, b, c) (a', b', c') = false.
Proof.
  intros H. unfold key_eqb. apply Z.eqb_neq in H. rewrite H.
  now rewrite andb_false_r.
Qed.

Lemma key_eqb_pos (a b c a' b' c' : Z) :
  (a, b) <> (a', b') -> key_eqb (a, b, c) (a', b', c') = false.
Proof.
  intros H. unfold key_eqb.
  destruct (Z.eqb_spec a a') as [->|Ha]; [|reflexivity].
  destruct (Z.eqb_spec b b') as [->|Hb]; [|reflexivity].
  now contradiction H.
Qed.

Lemma reflectIn_skip (k : Z) (vObj : VirtualObject) (st : PassState)
    (mirror : MirrorProps) :
  same_mirror_opt mirror (vo_sourceMirror vObj) = true ->
  reflectIn k vObj st mirror = st.
Proof. intros H; unfold reflectIn; now rewrite H. Qed.

Lemma reflectIn_push (k : Z) (vObj : VirtualObject)
    (im : list Key) (rs : list VirtualImage) (nv : list VirtualObject)
    (mirror : MirrorProps) :
  let virtual :=
    calculateVirtualImagePosition
      (mkObject (vo_position vObj) (o_size (vo_sourceObject vObj))
                (vo_direction vObj)) mirror in
  let key := (Math_round (x (v_position virtual)),
              Math_round (y (v_position virtual)), k) in
  same_mirror_opt mirror (vo_sourceMirror vObj) = false ->
  map_has im key = false ->
  reflectIn k vObj (mkPass im rs nv) mirror
  = mkPass (im ++ [key])
           (rs ++ [mkImage (v_position virtual) (v_direction virtual)
                           (v_size virtual) k mirror])
           (nv ++ [mkVObj (v_position virtual) (v_direction virtual)
                          (v_size virtual) (vo_sourceObject vObj)
                          (Some mirror) k]).
Proof.
  intros virtual key Hs Hk. unfold reflectIn. rewrite Hs.
  fold virtual. fold key. cbn [imageMap results newVirtualObjects].
  rewrite Hk. unfold map_set. now rewrite Hk.
Qed.

Lemma key_eqb_fresh (a b c a' b' c' : Z) :
  c <> c' \/ (a, b) <> (a', b') -> key_eqb (a, b, c) (a', b', c') = false.
Proof.
  intros [H|H]; [now apply key_eqb_depth|now apply key_eqb_pos].
Qed.

Lemma reflectionLoop_S (n : nat) (k : Z) (mirrors : list MirrorProps)
    (vos : list VirtualObject) (im : list Key) (rs : list VirtualImage) :
  reflectionLoop (S n) k mirrors vos im rs
  = let st := reflectionPass k mirrors vos (mkPass im rs []) in
    reflectionLoop n (k + 1)%Z mirrors
                   (newVirtualObjects st) (imageMap st) (results st).
Proof. reflexivity. Qed.

(** One step of the innermost loop, once the state it starts from is known;
    [side] proves that the new key is not in the map yet. *)
Ltac reflect_step side :=
  match goal with
  | |- context [reflectIn ?k ?v (mkPass ?im ?rs ?nv) ?m] =>
      first
        [ rewrite (reflectIn_skip k v (mkPass im rs nv) m)
            by (cbn [same_mirror_opt vo_sourceMirror]; assumption)
        | rewrite (reflectIn_push k v im rs nv m);
          [ cbn [app vo_position vo_direction vo_sourceObject o_size]
          | cbn [same_mirror_opt vo_sourceMirror]; first [reflexivity|assumption]
          | side ] ]
  end.

Ltac reflect_pass side :=
  rewrite reflectionLoop_S; unfold reflectionPass; cbn [fold_left];
  repeat reflect_step side;
  cbv zeta; cbn [newVirtualObjects imageMap results].

Lemma two_mirrors_three_orders (object : ObjectProps) (m1 m2 : MirrorProps) :
  let i1a := imageAt 1 object m1 in
  let i1b := imageAt 1 object m2 in
  let i2a := imageAt 2 (asObject i1a) m2 in
  let i2b := imageAt 2 (asObject i1b) m1 in
  let i3a := imageAt 3 (asObject i2a) m1 in
  let i3b := imageAt 3 (asObject i2b) m2 in
  same_mirror m1 m2 = false ->
  posKey (v_position i1b) <> posKey (v_position i1a) ->
  posKey (v_position i2b) <> posKey (v_position i2a) ->
  posKey (v_position i3b) <> posKey (v_position i3a) ->
  calculateParallelMirrorImages object [m1; m2] 3 = twoMirrorChains object m1 m2.
Proof.
  intros i1a i1b i2a i2b i3a i3b H12 K1 K2 K3.
  assert (H21 : same_mirror m2 m1 = false).
  { unfold same_mirror in *. now rewrite Nat.eqb_sym. }
  assert (H11 : same_mirror m1 m1 = true) by apply same_mirror_refl.
  assert (H22 : same_mirror m2 m2 = true) by apply same_mirror_refl.
  destruct object as [op os od].
  unfold calculateParallelMirrorImages.
  cbn [List.length Nat.ltb Nat.leb o_position o_direction o_size].
  change (Z.to_nat 3) with 3%nat.
  pose proof key_eqb_fresh as Hside.
  reflect_pass ltac:(
    unfold map_has; cbn [existsb app];
    repeat (rewrite Hside
              by first [ left; discriminate
                       | right; first [exact K1 | exact K2 | exact K3] ]);
    reflexivity).
  change (1 + 1)%Z with 2%Z.
  reflect_pass ltac:(
    unfold map_has; cbn [existsb app];
    repeat (rewrite Hside
              by first [ left; discriminate
                       | right; first [exact K1 | exact K2 | exact K3] ]);
    reflexivity).
  change (2 + 1)%Z with 3%Z.
  reflect_pass ltac:(
    unfold map_has; cbn [existsb app];
    repeat (rewrite Hside
              by first [ left; discriminate
                       | right; first [exact K1 | exact K2 | exact K3] ]);
    reflexivity).
  cbn [reflectionLoop map v_position v_direction v_order v_sourceMirror].
  reflexivity.
Qed.

(** In a mirror of rotation 0 or 180 degrees, reflection flips the abscissa
    about the mirror's and keeps the ordinate. *)
Lemma imageAt_upright (k : Z) (object : ObjectProps) (mirror : MirrorProps) :
  m_rotation mirror = 0 \/ m_rotation mirror = 180 ->
  v_position (imageAt k object mirror)
  = mkPoint (2 * x (m_position mirror) - x (o_position object))
            (y (o_position object)).
Proof.
  intros H. unfold imageAt, calculateVirtualImagePosition, getMirrorNormal,
    dotProduct, subtractVectors.
  cbn [v_position x y].
  destruct H as [-> | ->].
  - rewrite radians_0, cos_0, sin_0. f_equal; ring.
  - rewrite radians_180, cos_PI, sin_PI. f_equal; ring.
Qed.

Lemma posKey_far (p q : Point) :
  x p + 1 <= x q \/ x q + 1 <= x p -> posKey p <> posKey q.
Proof.
  unfold posKey. intros [H|H] E; injection E as Ex _.
  - now apply (Math_round_apart _ _ H).
  - symmetry in Ex. now apply (Math_round_apart _ _ H).
Qed.

(** C1: two mirrors of rotation 180 and 0 degrees (in either order) whose
    planes are 400 units apart, an object midway between the planes, three
    reflections: exactly six images come back, two of each order 1, 2 and 3,
    and along each of the two chains the source mirror alternates between
    the two mirrors. *)
Theorem parallel_pair_six_images (object : ObjectProps) (m1 m2 : MirrorProps) :
  (m_rotation m1 = 180 /\ m_rotation m2 = 0)
  \/ (m_rotation m1 = 0 /\ m_rotation m2 = 180) ->
  same_mirror m1 m2 = false ->
  Rabs (x (m_position m2) - x (m_position m1)) = 400 ->
  x (o_position object) = (x (m_position m1) + x (m_position m2)) / 2 ->
  let images := calculateParallelMirrorImages object [m1; m2] 3 in
  images = twoMirrorChains object m1 m2
  /\ List.length images = 6%nat
  /\ map v_order images = [1; 1; 2; 2; 3; 3]%Z
  /\ map v_sourceMirror images = [m1; m2; m2; m1; m1; m2].
Proof.
  intros Hrot H12 Hd Hmid images.
  assert (U1 : m_rotation m1 = 0 \/ m_rotation m1 = 180) by tauto.
  assert (U2 : m_rotation m2 = 0 \/ m_rotation m2 = 180) by tauto.
  assert (E : images = twoMirrorChains object m1 m2).
  { unfold images. apply two_mirrors_three_orders; [assumption| | |];
      apply posKey_far;
      repeat (rewrite imageAt_upright by assumption;
              cbn [x y asObject o_position]);
      rewrite Hmid; revert Hd; unfold Rabs; destruct (Rcase_abs _); lra. }
  rewrite E. repeat split.
Qed.

(** The default scene: six images. *)
Lemma parallel_pair_six_images_witness :
  List.length (calculateParallelMirrorImages midObject [leftMirror; rightMirror] 3)
  = 6%nat
  /\ map v_order
         (calculateParallelMirrorImages midObject [leftMirror; rightMirror] 3)
     = [1; 1; 2; 2; 3; 3]%Z.
Proof.
  destruct (parallel_pair_six_images midObject leftMirror rightMirror)
    as [_ [Hlen [Hord _]]].
  - left. split; reflexivity.
  - reflexivity.
  - cbn. replace (400 - 0) with 400 by lra. apply Rabs_right. lra.
  - cbn. lra.
  - split; assumption.
Defined.

(** ** Virtual mirrors of the first and second order (C2) *)

Lemma reflectAll_app (k : Z) (alloc : nat)
    (ps qs : list (MirrorProps * MirrorProps)) :
  reflectAll k alloc (ps ++ qs)
  = reflectAll k alloc ps ++ reflectAll k (alloc + List.length ps) qs.
Proof.
  revert alloc. induction ps as [|[s r] ps IH]; intros alloc; cbn.
  - now rewrite Nat.add_0_r.
  - rewrite IH. now rewrite Nat.add_succ_r.
Qed.

Lemma reflectAll_length (k : Z) (alloc : nat)
    (ps : list (MirrorProps * MirrorProps)) :
  List.length (reflectAll k alloc ps) = List.length ps.
Proof.
  revert alloc. induction ps as [|[s r] ps IH]; intros alloc; cbn;
    [reflexivity|now rewrite IH].
Qed.

Lemma reflectAll_In (k : Z) (alloc : nat)
    (ps : list (MirrorProps * MirrorProps)) (v : MirrorProps) :
  In v (reflectAll k alloc ps) ->
  m_isVirtual v = Some true /\ m_order v = Some k
  /\ exists s r, In (s, r) ps /\ m_sourceMirror v = Some r.
Proof.
  revert alloc. induction ps as [|[s r] ps IH]; intros alloc; cbn [reflectAll In].
  - intros [].
  - intros [<-|H].
    + repeat split. exists s, r. split; [now left|].
      unfold tagVirtual, calculateVirtualMirror.
      destruct (getMirrorEndpoints s). reflexivity.
    + destruct (IH _ H) as [H1 [H2 [s' [r' [H3 H4]]]]].
      repeat split; try assumption. exists s', r'. split; [now right|assumption].
Qed.

(** The inner [j] loop of the first-order pass. *)
Lemma firstOrderStep_fold (im : nat * MirrorProps)
    (l : list (nat * MirrorProps)) (st : VmState) :
  fold_left (firstOrderStep im) l st
  = let ps := map (fun jm => (snd im, snd jm))
                  (filter (fun jm => negb (fst im =? fst jm)%nat) l) in
    ((fst st + List.length ps)%nat, snd st ++ reflectAll 1 (fst st) ps).
Proof.
  revert st. induction l as [|jm l IH]; intros [a acc]; cbn [fold_left filter].
  - cbn. now rewrite Nat.add_0_r, app_nil_r.
  - rewrite IH. unfold firstOrderStep.
    destruct (negb (fst im =? fst jm)%nat); cbn [fst snd map List.length reflectAll].
    + rewrite <- app_assoc. cbn [app]. now rewrite Nat.add_succ_r.
    + reflexivity.
Qed.

Lemma firstOrderLoop_fold (mirrors : list MirrorProps)
    (l : list (nat * MirrorProps)) (st : VmState) :
  fold_left (fun st im => fold_left (firstOrderStep im) (indexed mirrors) st) l st
  = let ps :=
      flat_map
        (fun im =>
           map (fun jm => (snd im, snd jm))
               (filter (fun jm => negb (fst im =? fst jm)%nat) (indexed mirrors)))
        l in
    ((fst st + List.length ps)%nat, snd st ++ reflectAll 1 (fst st) ps).
Proof.
  revert st. induction l as [|im l IH]; intros [a acc]; cbn [fold_left flat_map].
  - cbn. now rewrite Nat.add_0_r, app_nil_r.
  - rewrite firstOrderStep_fold, IH. cbv zeta. cbn [fst snd].
    rewrite reflectAll_app, length_app, <- app_assoc.
    now rewrite Nat.add_assoc.
Qed.

Lemma secondOrderStep_fold (v : MirrorProps) (l : list MirrorProps) (st : VmState) :
  fold_left (secondOrderStep v) l st
  = let ps := map (fun m => (v, m))
                  (filter (fun m => negb (same_mirror_opt m (m_sourceMirror v))) l) in
    ((fst st + List.length ps)%nat, snd st ++ reflectAll 2 (fst st) ps).
Proof.
  revert st. induction l as [|m l IH]; intros [a acc]; cbn [fold_left filter].
  - cbn. now rewrite Nat.add_0_r, app_nil_r.
  - rewrite IH. unfold secondOrderStep.
    destruct (negb (same_mirror_opt m (m_sourceMirror v)));
      cbn [fst snd map List.length reflectAll].
    + rewrite <- app_assoc. cbn [app]. now rewrite Nat.add_succ_r.
    + reflexivity.
Qed.

Lemma secondOrderLoop_fold (firstOrder mirrors : list MirrorProps) (st : VmState) :
  secondOrderLoop firstOrder mirrors st
  = let ps := secondPairs firstOrder mirrors in
    ((fst st + List.length ps)%nat, snd st ++ reflectAll 2 (fst st) ps).
Proof.
  unfold secondOrderLoop, secondPairs.
  revert st. induction firstOrder as [|v l IH]; intros [a acc];
    cbn [fold_left flat_map].
  - cbn. now rewrite Nat.add_0_r, app_nil_r.
  - rewrite secondOrderStep_fold, IH. cbv zeta. cbn [fst snd].
    rewrite reflectAll_app, length_app, <- app_assoc.
    now rewrite Nat.add_assoc.
Qed.

(** The function as a comprehension, whatever the number of mirrors. *)
Lemma calculateVirtualMirrors_eq (alloc : nat) (mirrors : list MirrorProps) :
  let first := reflectAll 1 alloc (orderedPairs mirrors) in
  calculateVirtualMirrors alloc mirrors
  = first ++ reflectAll 2 (alloc + List.length first) (secondPairs first mirrors).
Proof.
  intros first. unfold calculateVirtualMirrors.
  destruct (List.length mirrors <=? 1)%nat eqn:E.
  - destruct mirrors as [|m [|m' rest]]; [reflexivity|reflexivity|discriminate].
  - unfold firstOrderLoop. rewrite firstOrderLoop_fold. cbv zeta.
    cbn [fst snd app]. fold (orderedPairs mirrors). fold first.
    rewrite secondOrderLoop_fold. cbv zeta. cbn [fst snd].
    replace (List.length first) with (List.length (orderedPairs mirrors));
      [reflexivity|].
    unfold first. now rewrite reflectAll_length.
Qed.

Lemma indexed_from_In {A : Type} (l : list A) (s i : nat) (a : A) :
  In (i, a) (combine (seq s (List.length l)) l)
  <-> (s <= i)%nat /\ nth_error l (i - s) = Some a.
Proof.
  revert s. induction l as [|b l IH]; intros s; cbn [List.length seq combine In].
  - split; [intros []|]. intros [_ H]. destruct (i - s)%nat; discriminate.
  - rewrite IH. split.
    + intros [E|[Hle Hn]].
      * injection E as <- <-. split; [lia|]. now rewrite Nat.sub_diag.
      * split; [lia|]. replace (i - s)%nat with (S (i - S s)) by lia. exact Hn.
    + intros [Hle Hn]. destruct (Nat.eq_dec s i) as [<-|Hne].
      * left. rewrite Nat.sub_diag in Hn. cbn in Hn. congruence.
      * right. split; [lia|].
        replace (i - s)%nat with (S (i - S s)) in Hn by lia. exact Hn.
Qed.

Lemma indexed_In {A : Type} (l : list A) (i : nat) (a : A) :
  In (i, a) (indexed l) <-> nth_error l i = Some a.
Proof.
  unfold indexed. rewrite indexed_from_In, Nat.sub_0_r.
  split; [tauto|]. intros H; split; [lia|exact H].
Qed.

(** Among the indices [s .. s + length l - 1] exactly one equals [i] when [i]
    is in that range. *)
Lemma other_indices_from {A : Type} (l : list A) (s i : nat) :
  List.length
    (filter (fun jm : nat * A => negb (i =? fst jm)%nat)
            (combine (seq s (List.length l)) l))
  = if ((s <=? i) && (i <? s + List.length l))%nat
    then (List.length l - 1)%nat else List.length l.
Proof.
  revert s. induction l as [|b l IH]; intros s;
    cbn [List.length seq combine filter fst].
  - now destruct ((s <=? i) && (i <? s + 0))%nat.
  - destruct (Nat.eqb_spec i s) as [->|Hne]; cbn [negb List.length].
    + rewrite IH.
      replace (S s <=? s)%nat with false by (symmetry; apply Nat.leb_gt; lia).
      cbn [andb]. rewrite Nat.leb_refl.
      replace (s <? s + S (List.length l))%nat with true
        by (symmetry; apply Nat.ltb_lt; lia).
      cbn [andb]. lia.
    + rewrite IH.
      destruct (Nat.leb_spec (S s) i), (Nat.leb_spec s i),
        (Nat.ltb_spec i (S s + List.length l)),
        (Nat.ltb_spec i (s + S (List.length l)));
        cbn [andb]; lia.
Qed.

Lemma flat_map_length_const {A B : Type} (f : A -> list B) (l : list A) (c : nat) :
  (forall a, In a l -> List.length (f a) = c) ->
  List.length (flat_map f l) = (List.length l * c)%nat.
Proof.
  induction l as [|a l IH]; intros H; cbn [flat_map List.length].
  - reflexivity.
  - rewrite length_app, (H a (or_introl eq_refl)), IH; [lia|].
    intros b Hb; apply H; now right.
Qed.

Lemma indexed_length {A : Type} (l : list A) :
  List.length (indexed l) = List.length l.
Proof.
  unfold indexed. rewrite length_combine, length_seq. lia.
Qed.

Lemma orderedPairs_length (mirrors : list MirrorProps) :
  List.length (orderedPairs mirrors)
  = (List.length mirrors * (List.length mirrors - 1))%nat.
Proof.
  unfold orderedPairs.
  rewrite (flat_map_length_const _ _ (List.length mirrors - 1)).
  - now rewrite indexed_length.
  - intros [i m] Hin. rewrite length_map. cbn [fst].
    unfold indexed at 1. rewrite other_indices_from.
    apply indexed_In in Hin.
    assert (Hi : (i < List.length mirrors)%nat)
      by (apply nth_error_Some; congruence).
    cbn [Nat.leb andb].
    replace (i <? 0 + List.length mirrors)%nat with true
      by (symmetry; apply Nat.ltb_lt; lia).
    reflexivity.
Qed.

Lemma orderedPairs_In (mirrors : list MirrorProps) (s r : MirrorProps) :
  In (s, r) (orderedPairs mirrors)
  <-> exists i j, i <> j /\ nth_error mirrors i = Some s
                  /\ nth_error mirrors j = Some r.
Proof.
  unfold orderedPairs. rewrite in_flat_map. split.
  - intros [[i mi] [Hi Hin]]. apply in_map_iff in Hin as [[j mj] [E Hj]].
    apply filter_In in Hj as [Hj Hne]. cbn [fst snd] in *.
    injection E as <- <-. exists i, j.
    apply negb_true_iff, Nat.eqb_neq in Hne.
    repeat split; [assumption|now apply indexed_In..].
  - intros [i [j [Hne [Hi Hj]]]]. exists (i, s). split; [now apply indexed_In|].
    apply in_map_iff. exists (j, r). split; [reflexivity|].
    apply filter_In. split; [now apply indexed_In|].
    cbn [fst]. now apply negb_true_iff, Nat.eqb_neq.
Qed.

(** In a list of distinct objects, all but one differ from a given entry. *)
Lemma other_mirrors_length (mirrors : list MirrorProps) (r : MirrorProps) :
  NoDup (map m_ref mirrors) -> In r mirrors ->
  List.length (filter (fun m => negb (same_mirror m r)) mirrors)
  = (List.length mirrors - 1)%nat.
Proof.
  induction mirrors as [|a l IH]; intros Hnd Hin; [destruct Hin|].
  cbn [map] in Hnd. apply NoDup_cons_iff in Hnd as [Hfresh Hnd].
  assert (Hkeep : forall b, ~ In (m_ref b) (map m_ref l) ->
            filter (fun m => negb (same_mirror m b)) l = l).
  { intros b Hb. apply forallb_filter_id. apply forallb_forall.
    intros m Hm. apply negb_true_iff, Nat.eqb_neq. intros E.
    apply Hb. rewrite <- E. now apply in_map. }
  cbn [filter List.length].
  destruct (same_mirror a r) eqn:E; cbn [negb List.length].
  - apply Nat.eqb_eq in E.
    rewrite (Hkeep r); [lia|]. now rewrite <- E.
  - destruct Hin as [->|Hin]; [now rewrite same_mirror_refl in E|].
    rewrite (IH Hnd Hin). destruct l; [destruct Hin|cbn [List.length]; lia].
Qed.

Lemma secondPairs_length (firstOrder mirrors : list MirrorProps) :
  NoDup (map m_ref mirrors) ->
  (forall v, In v firstOrder ->
             exists r, In r mirrors /\ m_sourceMirror v = Some r) ->
  List.length (secondPairs firstOrder mirrors)
  = (List.length firstOrder * (List.length mirrors - 1))%nat.
Proof.
  intros Hnd Hsrc. unfold secondPairs. apply flat_map_length_const.
  intros v Hv. rewrite length_map.
  destruct (Hsrc v Hv) as [r [Hr ->]]. cbn [same_mirror_opt].
  now apply other_mirrors_length.
Qed.

Lemma secondPairs_In (firstOrder mirrors : list MirrorProps) (v r : MirrorProps) :
  In (v, r) (secondPairs firstOrder mirrors)
  <-> In v firstOrder /\ In r mirrors
      /\ same_mirror_opt r (m_sourceMirror v) = false.
Proof.
  unfold secondPairs. rewrite in_flat_map. split.
  - intros [v' [Hv Hin]]. apply in_map_iff in Hin as [r' [E Hr]].
    injection E as <- <-. apply filter_In in Hr as [Hr Hne].
    now apply negb_true_iff in Hne.
  - intros [Hv [Hr Hne]]. exists v. split; [assumption|].
    apply in_map_iff. exists r. split; [reflexivity|].
    apply filter_In. split; [assumption|now apply negb_true_iff].
Qed.

(** C2: for pairwise distinct mirrors, [calculateVirtualMirrors] returns the
    [n * (n - 1)] first-order virtual mirrors, one per ordered pair [(i, j)]
    with [i <> j], each tagged virtual, of order 1 and with [mirrors[j]] as
    source mirror, followed by the [n * (n - 1) * (n - 1)] second-order ones,
    one per first-order mirror [v] and real mirror other than the source of
    [v], each tagged virtual and of order 2; nothing else.  With at most one
    mirror the result is empty. *)
Theorem calculateVirtualMirrors_census (alloc : nat) (mirrors : list MirrorProps) :
  NoDup (map m_ref mirrors) ->
  let n := List.length mirrors in
  let first := reflectAll 1 alloc (orderedPairs mirrors) in
  let second :=
    reflectAll 2 (alloc + List.length first) (secondPairs first mirrors) in
  calculateVirtualMirrors alloc mirrors = first ++ second
  /\ List.length first = (n * (n - 1))%nat
  /\ List.length second = (n * (n - 1) * (n - 1))%nat
  /\ (forall s r, In (s, r) (orderedPairs mirrors)
                  <-> exists i j, i <> j /\ nth_error mirrors i = Some s
                                  /\ nth_error mirrors j = Some r)
  /\ (forall v r, In (v, r) (secondPairs first mirrors)
                  <-> In v first /\ In r mirrors
                      /\ same_mirror_opt r (m_sourceMirror v) = false)
  /\ (forall v, In v first ->
        m_isVirtual v = Some true /\ m_order v = Some 1%Z
        /\ exists s r, In (s, r) (orderedPairs mirrors)
                       /\ m_sourceMirror v = Some r)
  /\ (forall v, In v second ->
        m_isVirtual v = Some true /\ m_order v = Some 2%Z
        /\ exists s r, In (s, r) (secondPairs first mirrors)
                       /\ m_sourceMirror v = Some r)
  /\ ((n <= 1)%nat -> calculateVirtualMirrors alloc mirrors = []).
Proof.
  intros Hnd n first second.
  assert (Hfirst : List.length first = (n * (n - 1))%nat).
  { unfold first. now rewrite reflectAll_length, orderedPairs_length. }
  assert (Hsrc : forall v, In v first ->
            exists r, In r mirrors /\ m_sourceMirror v = Some r).
  { intros v Hv. apply reflectAll_In in Hv as [_ [_ [s [r [Hp Hs]]]]].
    exists r. split; [|assumption].
    apply orderedPairs_In in Hp as [i [j [_ [_ Hj]]]].
    eapply nth_error_In; eassumption. }
  split; [apply calculateVirtualMirrors_eq|].
  split; [assumption|].
  split.
  { unfold second. rewrite reflectAll_length.
    rewrite (secondPairs_length first mirrors Hnd Hsrc). now rewrite Hfirst. }
  split; [apply orderedPairs_In|].
  split; [apply secondPairs_In|].
  split; [intros v Hv; now apply (reflectAll_In 1 alloc)|].
  split; [intros v Hv; now apply (reflectAll_In 2 (alloc + List.length first))|].
  intros Hn. unfold calculateVirtualMirrors.
  apply Nat.leb_le in Hn. fold n. now rewrite Hn.
Qed.

(** Two mirrors: two first-order and two second-order virtual mirrors. *)
Lemma calculateVirtualMirrors_census_witness :
  List.length (calculateVirtualMirrors 2 [leftMirror; rightMirror]) = 4%nat.
Proof.
  destruct (calculateVirtualMirrors_census 2 [leftMirror; rightMirror])
    as [E [H1 [H2 _]]].
  - cbn. repeat constructor; cbn; intuition discriminate.
  - rewrite E, length_app, H2, H1. reflexivity.
Defined.

(** ** Ray path reconstruction (C9) *)

Lemma extends_refl (ctx : Canvas) : extends ctx ctx.
Proof. exists []. now rewrite app_nil_r. Qed.

Lemma extends_trans (c1 c2 c3 : Canvas) :
  extends c1 c2 -> extends c2 c3 -> extends c1 c3.
Proof.
  intros [m1 ->] [m2 ->]. exists (m1 ++ m2). now rewrite app_assoc.
Qed.

Lemma extends_drawPath (ctx : Canvas) (a b : Point) (d : bool)
    (c : option string) :
  extends ctx (drawPath ctx a b d c).
Proof. unfold drawPath. now eexists. Qed.

Lemma findPrevImage_order (parallelImage : option (list VirtualImage))
    (currentImage prevImage : VirtualImage) :
  findPrevImage parallelImage currentImage = Some prevImage ->
  v_order prevImage = (v_order currentImage - 1)%Z.
Proof.
  unfold findPrevImage. destruct parallelImage as [images|]; [|discriminate].
  intros H. apply find_some in H as [_ H].
  apply andb_prop in H as [H _]. now apply Z.eqb_eq.
Qed.

(** The loop ends within [order] iterations, and only ever adds strokes. *)
Lemma traceBack_total (fuel : nat) (parallelImage : option (list VirtualImage))
    (object : ObjectProps) (color : option string) :
  forall (currentIntersection : Point) (currentImage : VirtualImage)
         (ctx : Canvas),
    (Z.to_nat (v_order currentImage) <= fuel)%nat ->
    exists ctx',
      traceBack fuel parallelImage object color
                currentIntersection currentImage ctx = Some ctx'
      /\ extends ctx ctx'.
Proof.
  induction fuel as [|fuel IH]; intros cur img ctx Hfuel.
  - cbn [traceBack].
    replace (1 <? v_order img)%Z with false
      by (symmetry; apply Z.ltb_ge; lia).
    exists ctx. split; [reflexivity|apply extends_refl].
  - cbn [traceBack].
    destruct (1 <? v_order img)%Z eqn:Hord; cbn [negb];
      [|exists ctx; split; [reflexivity|apply extends_refl]].
    destruct (findPrevImage parallelImage img) as [prev|] eqn:Hfind;
      [|exists ctx; split; [reflexivity|apply extends_refl]].
    destruct (getMirrorEndpoints (v_sourceMirror prev)) as [ps pe].
    destruct (lineIntersection cur (v_position prev) ps pe) as [pi|];
      [|exists ctx; split; [reflexivity|apply extends_refl]].
    apply findPrevImage_order in Hfind.
    match goal with
    | |- exists c, traceBack fuel _ _ _ ?p ?i ?c0 = Some c /\ _ =>
        destruct (IH p i c0) as [ctx' [E Hext]]; [lia|]
    end.
    exists ctx'. split; [exact E|].
    eapply extends_trans; [|exact Hext].
    destruct (v_order prev =? 1)%Z.
    + eapply extends_trans; apply extends_drawPath.
    + apply extends_drawPath.
Qed.

(** C9: [drawLightRay] always returns, having only added strokes to the
    canvas; and whenever the backward walk for an image of order above 1
    cannot go on (no earlier image of the order below with another source
    mirror, or no intersection with that image's mirror), the walk stops and
    the canvas is exactly what had been drawn up to that step. *)
Theorem drawLightRay_soft_failure :
  (forall ctx virtualImage object observer mirror parallelImage,
      exists ctx',
        drawLightRay ctx virtualImage object observer mirror parallelImage
        = Some ctx'
        /\ extends ctx ctx')
  /\ (forall fuel parallelImage object color currentIntersection
             currentImage ctx,
        (1 < v_order currentImage)%Z ->
        (Z.to_nat (v_order currentImage) <= fuel)%nat ->
        chainBroken parallelImage currentIntersection currentImage ->
        traceBack fuel parallelImage object color
                  currentIntersection currentImage ctx = Some ctx)
  /\ (forall ctx virtualImage object observer mirror parallelImage
             mirrorIntersection,
        (1 < v_order virtualImage)%Z ->
        lineIntersection (v_position virtualImage) (ob_position observer)
                         (fst (getMirrorEndpoints mirror))
                         (snd (getMirrorEndpoints mirror))
        = Some mirrorIntersection ->
        chainBroken parallelImage mirrorIntersection virtualImage ->
        drawLightRay ctx virtualImage object observer mirror parallelImage
        = Some (drawPath
                  (drawPath ctx mirrorIntersection (ob_position observer)
                            false (getColorForOrder (v_order virtualImage)))
                  mirrorIntersection (v_position virtualImage) true
                  (getColorForOrder (v_order virtualImage)))).
Proof.
  assert (Hbroken : forall fuel parallelImage object color cur img ctx,
             (1 < v_order img)%Z ->
             (Z.to_nat (v_order img) <= fuel)%nat ->
             chainBroken parallelImage cur img ->
             traceBack fuel parallelImage object color cur img ctx = Some ctx).
  { intros fuel pI object color cur img ctx Hord Hfuel Hb.
    destruct fuel as [|fuel]; [lia|]. cbn [traceBack].
    apply Z.ltb_lt in Hord. rewrite Hord. cbn [negb].
    destruct Hb as [->|[prev [-> Hmiss]]]; [reflexivity|].
    destruct (getMirrorEndpoints (v_sourceMirror prev)) as [ps pe].
    cbn [fst snd] in Hmiss. now rewrite Hmiss. }
  split; [|split; [exact Hbroken|]].
  - intros ctx vi object observer mirror pI. unfold drawLightRay.
    destruct (getMirrorEndpoints mirror) as [ms me].
    destruct (lineIntersection _ _ ms me) as [mi|];
      [|exists ctx; split; [reflexivity|apply extends_refl]].
    destruct (v_order vi =? 1)%Z.
    + eexists. split; [reflexivity|].
      eapply extends_trans; [apply extends_drawPath|].
      eapply extends_trans; apply extends_drawPath.
    + match goal with
      | |- exists c, traceBack ?f _ _ ?col ?p ?i ?c0 = Some c /\ _ =>
          destruct (traceBack_total f pI object col p i c0) as [ctx' [E Hext]];
            [unfold traceFuel; lia|]
      end.
      exists ctx'. split; [exact E|].
      eapply extends_trans; [apply extends_drawPath|].
      eapply extends_trans; [apply extends_drawPath|exact Hext].
  - intros ctx vi object observer mirror pI mi Hord Hmi Hb.
    unfold drawLightRay.
    destruct (getMirrorEndpoints mirror) as [ms me]. cbn [fst snd] in Hmi.
    rewrite Hmi.
    replace (v_order vi =? 1)%Z with false by (symmetry; apply Z.eqb_neq; lia).
    apply Hbroken; [assumption|unfold traceFuel; lia|assumption].
Qed.

(** ** Instances *)

(** No mirror, no image. *)
Lemma calculateParallelMirrorImages_few_witness :
  calculateParallelMirrorImages midObject [leftMirror] 3 = [].
Proof.
  apply (calculateParallelMirrorImages_few midObject [leftMirror] 3).
  cbn. lia.
Defined.

(** An image of order 2 with nothing to walk back to: nothing is drawn. *)
Lemma drawLightRay_soft_failure_witness :
  traceBack 2 (Some []) midObject None (mkPoint 0 300)
            (mkImage (mkPoint (-200) 250) 180 30 2 leftMirror) []
  = Some [].
Proof.
  destruct drawLightRay_soft_failure as [_ [H _]].
  apply H.
  - reflexivity.
  - cbn. lia.
  - left. reflexivity.
Defined.

Lemma cornerScene_parallel :
  let A := plainMirror 0 0 in
  let B := plainMirror 1 180 in
  let C := plainMirror 2 90 in
  areParallel A B = true /\ areParallel B A = true
  /\ areParallel A C = false /\ areParallel C A = false
  /\ areParallel B C = false /\ areParallel C B = false.
Proof.
  intros A B C.
  assert (HAB : areParallel A B = true).
  { apply (areParallel_turns A B 180); [|reflexivity]. cbn.
    replace (0 - 180) with (-180) by lra. rewrite Rabs_left; lra. }
  assert (HAC : areParallel A C = false).
  { apply (areParallel_turns A C 90); [|reflexivity]. cbn.
    replace (0 - 90) with (-90) by lra. rewrite Rabs_left; lra. }
  assert (HBC : areParallel B C = false).
  { apply (areParallel_turns B C 90); [|reflexivity]. cbn.
    replace (180 - 90) with 90 by lra. rewrite Rabs_right; lra. }
  repeat split; try assumption.
  - now rewrite areParallel_sym.
  - now rewrite areParallel_sym.
  - now rewrite areParallel_sym.
Qed.

(** The corner scene is grouped into disjoint groups of parallel mirrors. *)
Lemma findParallelMirrorGroups_partition_witness :
  disjointGroups (findParallelMirrorGroups cornerScene)
  /\ parallelWithin (findParallelMirrorGroups cornerScene).
Proof.
  apply (findParallelMirrorGroups_partition cornerScene).
  - intros a b Ha Hb E. unfold cornerScene in Ha, Hb. cbn [In] in Ha, Hb.
    destruct Ha as [<-|[<-|[<-|[]]]], Hb as [<-|[<-|[<-|[]]]];
      first [reflexivity|discriminate E].
  - destruct cornerScene_parallel as [HAB [HBA [HAC [HCA [HBC HCB]]]]].
    intros a b c Ha Hb Hc. unfold cornerScene in Ha, Hb, Hc.
    cbn [In] in Ha, Hb, Hc.
    destruct Ha as [<-|[<-|[<-|[]]]], Hb as [<-|[<-|[<-|[]]]],
      Hc as [<-|[<-|[<-|[]]]];
      intros H1 H2;
      first [apply areParallel_refl|assumption|congruence].
Defined.

(** * Further properties of the geometry helpers *)

(** ** Endpoints and normal of a mirror *)

Lemma cos_sin_unit (a : R) : cos a * cos a + sin a * sin a = 1.
Proof. pose proof (sin2_cos2 a) as H. unfold Rsqr in H. lra. Qed.

(** X1: the two endpoints of a mirror are symmetric about its position, lie
    [height] apart, and the segment between them is perpendicular to the
    mirror's normal. *)
Theorem getMirrorEndpoints_geometry (mirror : MirrorProps) :
  let start := fst (getMirrorEndpoints mirror) in
  let end_ := snd (getMirrorEndpoints mirror) in
  (x start + x end_) / 2 = x (m_position mirror)
  /\ (y start + y end_) / 2 = y (m_position mirror)
  /\ distSq start end_ = m_height mirror * m_height mirror
  /\ dotProduct (subtractVectors end_ start) (getMirrorNormal mirror) = 0.
Proof.
  unfold getMirrorEndpoints, getMirrorNormal, distSq, dotProduct,
    subtractVectors.
  cbn [fst snd x y].
  pose proof (cos_sin_unit (m_rotation mirror * PI / 180)) as H.
  set (c := cos _) in *. set (s := sin _) in *.
  repeat split; try lra.
  - replace ((x (m_position mirror) + s * (m_height mirror / 2)
              - (x (m_position mirror) - s * (m_height mirror / 2)))
             * (x (m_position mirror) + s * (m_height mirror / 2)
                - (x (m_position mirror) - s * (m_height mirror / 2)))
             + (y (m_position mirror) - c * (m_height mirror / 2)
                - (y (m_position mirror) + c * (m_height mirror / 2)))
               * (y (m_position mirror) - c * (m_height mirror / 2)
                  - (y (m_position mirror) + c * (m_height mirror / 2))))
      with (m_height mirror * m_height mirror * (c * c + s * s)) by field.
    rewrite H. ring.
Qed.

(** ** Reflection of a point in a mirror's plane *)

Lemma reflected_side (object : ObjectProps) (mirror : MirrorProps) :
  sideOf mirror (v_position (calculateVirtualImagePosition object mirror))
  = - sideOf mirror (o_position object).
Proof.
  pose proof (normal_unit mirror) as Hn.
  unfold sideOf, calculateVirtualImagePosition, dotProduct, subtractVectors.
  cbn [v_position x y].
  set (n := getMirrorNormal mirror) in *.
  set (d := (x (o_position object) - x (m_position mirror)) * x n
            + (y (o_position object) - y (m_position mirror)) * y n).
  replace ((x (o_position object) - 2 * d * x n - x (m_position mirror)) * x n
           + (y (o_position object) - 2 * d * y n - y (m_position mirror)) * y n)
    with (d - 2 * d * (x n * x n + y n * y n)) by (unfold d; ring).
  rewrite Hn. ring.
Qed.

(** X2: an object and its image are on opposite sides of the mirror's plane,
    at the same distance from it. *)
Theorem image_mirror_symmetry (object : ObjectProps) (mirror : MirrorProps) :
  let image := calculateVirtualImagePosition object mirror in
  sideOf mirror (v_position image) = - sideOf mirror (o_position object)
  /\ Rabs (sideOf mirror (v_position image))
     = Rabs (sideOf mirror (o_position object)).
Proof.
  intros image. unfold image. rewrite reflected_side.
  split; [reflexivity|apply Rabs_Ropp].
Qed.

Lemma image_offset (object : ObjectProps) (mirror : MirrorProps) :
  let image := calculateVirtualImagePosition object mirror in
  x (v_position image)
  = x (o_position object)
    - 2 * sideOf mirror (o_position object) * x (getMirrorNormal mirror)
  /\ y (v_position image)
     = y (o_position object)
       - 2 * sideOf mirror (o_position object) * y (getMirrorNormal mirror).
Proof. split; reflexivity. Qed.

(** X3: the image coincides with the object exactly when the object lies on
    the mirror's plane. *)
Theorem image_fixed_iff_on_plane (object : ObjectProps) (mirror : MirrorProps) :
  v_position (calculateVirtualImagePosition object mirror) = o_position object
  <-> sideOf mirror (o_position object) = 0.
Proof.
  pose proof (normal_unit mirror) as Hn.
  destruct (image_offset object mirror) as [Hx Hy].
  set (image := calculateVirtualImagePosition object mirror) in *.
  set (d := sideOf mirror (o_position object)) in *.
  set (n := getMirrorNormal mirror) in *.
  split.
  - intros E. rewrite E in Hx, Hy.
    assert (Ex : d * x n = 0) by lra.
    assert (Ey : d * y n = 0) by lra.
    replace d with (d * (x n * x n + y n * y n)) by (rewrite Hn; ring).
    replace (d * (x n * x n + y n * y n))
      with (d * x n * x n + d * y n * y n) by ring.
    rewrite Ex, Ey. ring.
  - intros E. rewrite E in Hx, Hy.
    destruct (v_position image) as [ix iy], (o_position object) as [ox oy].
    cbn [x y] in *. f_equal; lra.
Qed.

(** X4: reflection in a mirror keeps distances: two objects are as far apart
    as their images in the same mirror. *)
Theorem reflection_isometry (o1 o2 : ObjectProps) (mirror : MirrorProps) :
  distSq (v_position (calculateVirtualImagePosition o1 mirror))
         (v_position (calculateVirtualImagePosition o2 mirror))
  = distSq (o_position o1) (o_position o2).
Proof.
  pose proof (normal_unit mirror) as Hn.
  destruct (image_offset o1 mirror) as [Hx1 Hy1].
  destruct (image_offset o2 mirror) as [Hx2 Hy2].
  unfold distSq. rewrite Hx1, Hy1, Hx2, Hy2.
  unfold sideOf, dotProduct, subtractVectors. cbn [x y].
  set (n := getMirrorNormal mirror) in *.
  set (a := x (o_position o1) - x (o_position o2)).
  set (b := y (o_position o1) - y (o_position o2)).
  set (e := a * x n + b * y n).
  transitivity ((a - 2 * e * x n) * (a - 2 * e * x n)
                + (b - 2 * e * y n) * (b - 2 * e * y n)).
  { unfold e, a, b. ring. }
  transitivity (a * a + b * b - 4 * e * e + 4 * e * e * (x n * x n + y n * y n)).
  { unfold e. ring. }
  rewrite Hn. ring.
Qed.

(** Mirrors half a turn apart have opposite normals. *)
Lemma normal_half_turn (m1 m2 : MirrorProps) :
  Rabs (m_rotation m2 - m_rotation m1) = 180 ->
  x (getMirrorNormal m2) = - x (getMirrorNormal m1)
  /\ y (getMirrorNormal m2) = - y (getMirrorNormal m1).
Proof.
  intros H. unfold getMirrorNormal. cbn [x y].
  assert (E : m_rotation m2 * PI / 180 = m_rotation m1 * PI / 180 + PI
              \/ m_rotation m2 * PI / 180 = m_rotation m1 * PI / 180 - PI).
  { revert H. unfold Rabs. destruct (Rcase_abs _); intros H.
    - right. replace (m_rotation m2) with (m_rotation m1 - 180) by lra. lra.
    - left. replace (m_rotation m2) with (m_rotation m1 + 180) by lra. lra. }
  destruct E as [-> | ->].
  - now rewrite neg_cos, neg_sin.
  - rewrite cos_minus, sin_minus, cos_PI, sin_PI. split; ring.
Qed.

(** X5: reflecting in one mirror and then in a mirror parallel to it (same
    rotation, or half a turn apart) moves the object by twice the offset
    between the two planes along the normal. *)
Theorem parallel_double_reflection (object : ObjectProps) (m1 m2 : MirrorProps) :
  m_rotation m2 = m_rotation m1
  \/ Rabs (m_rotation m2 - m_rotation m1) = 180 ->
  let n := getMirrorNormal m1 in
  let gap := dotProduct (subtractVectors (m_position m2) (m_position m1)) n in
  v_position
    (calculateVirtualImagePosition
       (asObject (calculateVirtualImagePosition object m1)) m2)
  = mkPoint (x (o_position object) + 2 * gap * x n)
            (y (o_position object) + 2 * gap * y n).
Proof.
  intros Hrot n gap.
  pose proof (normal_unit m1) as Hn. fold n in Hn.
  assert (Hn2 : (x (getMirrorNormal m2) = x n /\ y (getMirrorNormal m2) = y n)
                \/ (x (getMirrorNormal m2) = - x n
                    /\ y (getMirrorNormal m2) = - y n)).
  { destruct Hrot as [E|E].
    - left. unfold n, getMirrorNormal. rewrite E. now split.
    - right. now apply normal_half_turn. }
  unfold gap, calculateVirtualImagePosition, asObject, dotProduct,
    subtractVectors.
  cbn [v_position o_position x y]. fold n.
  set (px := x (o_position object)). set (py := y (o_position object)).
  set (ax := x (m_position m1)). set (ay := y (m_position m1)).
  set (bx := x (m_position m2)). set (by_ := y (m_position m2)).
  set (u := x n) in *. set (v := y n) in *.
  clearbody px py ax ay bx by_ u v.
  set (d := (px - ax) * u + (py - ay) * v).
  destruct Hn2 as [[-> ->]|[-> ->]].
  - assert (He : (px - 2 * d * u - bx) * u + (py - 2 * d * v - by_) * v
                 = (px - bx) * u + (py - by_) * v - 2 * d).
    { transitivity ((px - bx) * u + (py - by_) * v - 2 * d * (u * u + v * v));
        [ring|rewrite Hn; ring]. }
    rewrite He. unfold d. f_equal; ring.
  - assert (He : (px - 2 * d * u - bx) * - u + (py - 2 * d * v - by_) * - v
                 = - ((px - bx) * u + (py - by_) * v - 2 * d)).
    { transitivity (- ((px - bx) * u + (py - by_) * v
                       - 2 * d * (u * u + v * v)));
        [ring|rewrite Hn; ring]. }
    rewrite He. unfold d. f_equal; ring.
Qed.

(** The default pair of mirrors: the second-order image is the object moved
    by twice the 400 units between the mirrors. *)
Lemma parallel_double_reflection_witness :
  v_position
    (calculateVirtualImagePosition
       (asObject (calculateVirtualImagePosition midObject leftMirror))
       rightMirror)
  = mkPoint (x (o_position midObject)
             + 2 * dotProduct (subtractVectors (m_position rightMirror)
                                               (m_position leftMirror))
                              (getMirrorNormal leftMirror)
               * x (getMirrorNormal leftMirror))
            (y (o_position midObject)
             + 2 * dotProduct (subtractVectors (m_position rightMirror)
                                               (m_position leftMirror))
                              (getMirrorNormal leftMirror)
               * y (getMirrorNormal leftMirror)).
Proof.
  apply (parallel_double_reflection midObject leftMirror rightMirror).
  right. cbn. replace (0 - 180) with (-180) by lra. rewrite Rabs_left; lra.
Defined.

(** ** The reflected direction *)

Lemma js_rem_multiple (a b : R) : exists k : Z, js_rem a b = a - b * IZR k.
Proof. now exists (Rtrunc (a / b)). Qed.

(** X6: the direction of the image of the image in the same mirror is the
    object's direction again, up to whole turns. *)
Theorem direction_double_reflection (object : ObjectProps) (mirror : MirrorProps) :
  exists k : Z,
    v_direction
      (calculateVirtualImagePosition
         (asObject (calculateVirtualImagePosition object mirror)) mirror)
    = o_direction object + 360 * IZR k.
Proof.
  unfold calculateVirtualImagePosition, asObject.
  cbn [v_direction o_direction].
  set (a := normalizedMirrorAngle mirror).
  destruct (js_rem_multiple (2 * a - o_direction object + 180) 360) as [k1 E1].
  rewrite E1.
  destruct (js_rem_multiple
              (2 * a - (2 * a - o_direction object + 180 - 360 * IZR k1) + 180)
              360) as [k2 E2].
  rewrite E2. exists (k1 - k2)%Z. rewrite minus_IZR. ring.
Qed.

(** X7: an object facing at most 180 degrees gets an image direction in
    [[0, 360)]. *)
Theorem reflected_direction_range (object : ObjectProps) (mirror : MirrorProps) :
  o_direction object <= 180 ->
  0 <= v_direction (calculateVirtualImagePosition object mirror) < 360.
Proof.
  intros H. unfold calculateVirtualImagePosition. cbn [v_direction].
  pose proof (normalizedMirrorAngle_range mirror) as Ha.
  apply js_rem_nonneg; lra.
Qed.

Lemma reflected_direction_range_witness :
  0 <= v_direction (calculateVirtualImagePosition midObject leftMirror) < 360.
Proof.
  apply (reflected_direction_range midObject leftMirror). cbn. lra.
Defined.

(** ** Vector length and normalisation *)

Lemma sumsq_nonneg (a b : R) : 0 <= a * a + b * b.
Proof. nra. Qed.

Lemma vectorLength_zero_iff (v : Point) :
  vectorLength v = 0 <-> x v = 0 /\ y v = 0.
Proof.
  unfold vectorLength. split.
  - intros H. apply sqrt_eq_0 in H; [|apply sumsq_nonneg]. split; nra.
  - intros [-> ->]. replace (0 * 0 + 0 * 0) with 0 by ring. apply sqrt_0.
Qed.

Lemma vectorLength_sq (v : Point) :
  vectorLength v * vectorLength v = x v * x v + y v * y v.
Proof. unfold vectorLength. apply sqrt_sqrt, sumsq_nonneg. Qed.

Lemma vectorLength_nonneg (v : Point) : 0 <= vectorLength v.
Proof. apply sqrt_pos. Qed.

Lemma normalizeVector_nonzero (v : Point) :
  vectorLength v <> 0 ->
  normalizeVector v = mkPoint (x v / vectorLength v) (y v / vectorLength v)
  /\ vectorLength (normalizeVector v) = 1.
Proof.
  intros H. unfold normalizeVector.
  destruct (Req_dec_T (vectorLength v) 0) as [E|_]; [contradiction|].
  split; [reflexivity|].
  pose proof (vectorLength_sq v) as Hsq.
  set (l := vectorLength v) in *.
  unfold vectorLength at 1. cbn [x y].
  replace (x v / l * (x v / l) + y v / l * (y v / l)) with 1;
    [apply sqrt_1|].
  transitivity ((x v * x v + y v * y v) / (l * l)); [|field; assumption].
  rewrite <- Hsq. field. assumption.
Qed.

(** X8: [normalizeVector] returns the zero vector for the zero vector and
    otherwise the vector of length 1 with the same direction (the input
    divided by its length). *)
Theorem normalizeVector_spec (v : Point) :
  (x v = 0 /\ y v = 0 -> normalizeVector v = mkPoint 0 0)
  /\ (~ (x v = 0 /\ y v = 0) ->
      vectorLength (normalizeVector v) = 1
      /\ multiplyVector (normalizeVector v) (vectorLength v) = v
      /\ 0 < vectorLength v).
Proof.
  split.
  - intros H. apply vectorLength_zero_iff in H. unfold normalizeVector.
    destruct (Req_dec_T (vectorLength v) 0); [reflexivity|contradiction].
  - intros H.
    assert (Hl : vectorLength v <> 0)
      by (intros E; apply H; now apply vectorLength_zero_iff).
    destruct (normalizeVector_nonzero v Hl) as [E Hu].
    split; [exact Hu|]. split.
    + rewrite E. unfold multiplyVector. cbn [x y].
      destruct v as [vx vy]. cbn [x y] in *. f_equal; field; assumption.
    + pose proof (vectorLength_nonneg v). lra.
Qed.

Lemma normalizeVector_spec_witness :
  vectorLength (normalizeVector (mkPoint 3 4)) = 1.
Proof.
  destruct (normalizeVector_spec (mkPoint 3 4)) as [_ H].
  apply H. cbn. lra.
Defined.

(** ** Reflection of a ray *)

Lemma lineIntersection_degenerate (p q r : Point) :
  lineIntersection p (addVectors p (mkPoint 0 0)) q r = None.
Proof.
  apply lineIntersection_None. left.
  unfold denomOf, addVectors. cbn [x y].
  replace ((y r - y q) * (x p + 0 - x p) - (x r - x q) * (y p + 0 - y p))
    with 0 by ring.
  rewrite Rabs_R0. lra.
Qed.

(** The mirrored direction has the length of the incoming one. *)
Lemma mirrored_length (d n : Point) :
  x n * x n + y n * y n = 1 ->
  vectorLength (subtractVectors d (multiplyVector n (2 * dotProduct d n)))
  = vectorLength d.
Proof.
  intros Hn. unfold vectorLength, subtractVectors, multiplyVector, dotProduct.
  cbn [x y]. f_equal.
  set (e := x d * x n + y d * y n).
  transitivity (x d * x d + y d * y d - 4 * e * e
                + 4 * e * e * (x n * x n + y n * y n)).
  { unfold e. ring. }
  rewrite Hn. ring.
Qed.

(** X9: [calculateReflection] gives nothing exactly when the ray segment
    misses the mirror; otherwise it gives a unit vector whose component along
    the mirror's normal is the incoming one reversed and whose component
    along the mirror is the incoming one unchanged (both scaled by the
    length of the incoming direction). *)
Theorem calculateReflection_spec (rayStart rayDirection : Point)
    (mirror : MirrorProps) :
  let n := getMirrorNormal mirror in
  (calculateReflection rayStart rayDirection mirror = None
   <-> lineIntersection rayStart (addVectors rayStart rayDirection)
         (fst (getMirrorEndpoints mirror)) (snd (getMirrorEndpoints mirror))
       = None)
  /\ (forall r, calculateReflection rayStart rayDirection mirror = Some r ->
        vectorLength r = 1
        /\ dotProduct r n * vectorLength rayDirection
           = - dotProduct rayDirection n
        /\ (x r * y n - y r * x n) * vectorLength rayDirection
           = x rayDirection * y n - y rayDirection * x n).
Proof.
  intros n. unfold calculateReflection.
  destruct (getMirrorEndpoints mirror) as [ms me]. cbn [fst snd].
  fold n.
  destruct (lineIntersection rayStart (addVectors rayStart rayDirection) ms me)
    as [hit|] eqn:Hhit; cbn [truthy negb].
  2:{ split; [tauto|discriminate]. }
  split; [split; discriminate|].
  intros r [= <-].
  pose proof (normal_unit mirror) as Hn. fold n in Hn.
  assert (Hd : vectorLength rayDirection <> 0).
  { intros E. apply vectorLength_zero_iff in E as [Ex Ey].
    destruct rayDirection as [dx dy]. cbn [x y] in Ex, Ey. subst dx dy.
    rewrite lineIntersection_degenerate in Hhit. discriminate. }
  pose proof (mirrored_length rayDirection n Hn) as Hlen.
  set (m := subtractVectors rayDirection
              (multiplyVector n (2 * dotProduct rayDirection n))) in *.
  assert (Hm : vectorLength m <> 0) by now rewrite Hlen.
  destruct (normalizeVector_nonzero m Hm) as [E Hu].
  split; [exact Hu|].
  rewrite E, Hlen. unfold dotProduct. cbn [x y].
  set (l := vectorLength rayDirection) in *.
  unfold m, subtractVectors, multiplyVector, dotProduct. cbn [x y].
  set (e := x rayDirection * x n + y rayDirection * y n).
  split.
  - transitivity (e - 2 * e * (x n * x n + y n * y n));
      [unfold e; field; assumption|].
    rewrite Hn. ring.
  - transitivity (x rayDirection * y n - y rayDirection * x n
                  + 2 * e * 0); [unfold e; field; assumption|ring].
Qed.

Lemma leftMirror_endpoints :
  getMirrorEndpoints leftMirror = (mkPoint 0 500, mkPoint 0 100).
Proof.
  unfold getMirrorEndpoints, leftMirror. cbn [m_rotation m_height m_position x y].
  rewrite radians_180, sin_PI, cos_PI. f_equal; f_equal; lra.
Qed.

(** A ray from between the mirrors towards the left mirror is reflected. *)
Lemma calculateReflection_spec_witness :
  exists r,
    calculateReflection (mkPoint 200 300) (mkPoint (-400) 0) leftMirror = Some r
    /\ vectorLength r = 1.
Proof.
  destruct (calculateReflection_spec (mkPoint 200 300) (mkPoint (-400) 0)
              leftMirror) as [Hnone Hsome].
  destruct (calculateReflection (mkPoint 200 300) (mkPoint (-400) 0) leftMirror)
    as [r|] eqn:E.
  - exists r. split; [reflexivity|]. now destruct (Hsome r eq_refl).
  - exfalso. destruct Hnone as [Hnone _]. specialize (Hnone eq_refl).
    rewrite leftMirror_endpoints in Hnone. cbn [fst snd] in Hnone.
    apply lineIntersection_None in Hnone.
    unfold noIntersection, uaOf, ubOf, denomOf, addVectors in Hnone.
    cbn [x y] in Hnone.
    replace ((100 - 500) * (200 + -400 - 200) - (0 - 0) * (300 + 0 - 300))
      with 160000 in Hnone by lra.
    rewrite Rabs_right in Hnone by lra. lra.
Defined.

(** ** Hit test of a mirror *)


Lemma Rleb_false (a b : R) : Rleb a b = false <-> b < a.
Proof.
  unfold Rleb. destruct (Rle_dec a b); split; intros; try easy; lra.
Qed.

(** The point in the mirror's own frame: along its normal and along its
    reflective line. *)
Lemma isPointInMirror_local (px py : R) (mirror : MirrorProps) :
  let c := cos (m_rotation mirror * PI / 180) in
  let s := sin (m_rotation mirror * PI / 180) in
  let dx := px - x (m_position mirror) in
  let dy := py - y (m_position mirror) in
  isPointInMirror px py mirror
  = Rleb (Rabs (dx * c + dy * s)) (m_width mirror / 2)
    && Rleb (Rabs (dy * c - dx * s)) (m_height mirror / 2).
Proof.
  intros c s dx dy. unfold isPointInMirror.
  replace (- (m_rotation mirror * PI) / 180)
    with (- (m_rotation mirror * PI / 180)) by lra.
  rewrite cos_neg, sin_neg. fold c s dx dy.
  f_equal; f_equal; f_equal; ring.
Qed.



(** X11: a mirror of negative width or negative height contains no point at
    all. *)
Theorem negative_mirror_contains_nothing (px py : R) (mirror : MirrorProps) :
  m_width mirror < 0 \/ m_height mirror < 0 ->
  isPointInMirror px py mirror = false.
Proof.
  intros H. rewrite isPointInMirror_local. cbv zeta.
  apply andb_false_iff.
  destruct H as [H|H]; [left|right]; apply Rleb_false;
    match goal with |- _ < Rabs ?e => pose proof (Rabs_pos e) end; lra.
Qed.

Lemma negative_mirror_contains_nothing_witness :
  isPointInMirror 0 0 (mkMirror 0 (mkPoint 0 0) (-6) 400 0 None None None)
  = false.
Proof.
  apply negative_mirror_contains_nothing. left. cbn. lra.
Defined.



(** ** Distance from a point to a mirror *)

(** The parameter of the closest point and the squared distance the function
    takes the root of, in terms of the offsets the source names [A], [B],
    [C], [D]. *)
Lemma distanceToMirror_cases (point : Point) (mirror : MirrorProps) :
  let p1 := fst (getMirrorEndpoints mirror) in
  let p2 := snd (getMirrorEndpoints mirror) in
  let A := x point - x p1 in
  let B := y point - y p1 in
  let C := x p2 - x p1 in
  let D := y p2 - y p1 in
  exists t,
    0 <= t <= 1
    /\ distanceToMirror point mirror
       = sqrt ((A - t * C) * (A - t * C) + (B - t * D) * (B - t * D))
    /\ (t = 0 -> (A * C + B * D) <= 0 \/ C * C + D * D = 0)
    /\ (t = 1 -> C * C + D * D <= A * C + B * D)
    /\ (0 < t < 1 -> t * (C * C + D * D) = A * C + B * D).
Proof.
  cbv zeta. unfold distanceToMirror.
  destruct (getMirrorEndpoints mirror) as [p1 p2]. cbn [fst snd].
  set (A := x point - x p1). set (B := y point - y p1).
  set (C := x p2 - x p1). set (D := y p2 - y p1).
  destruct (Req_dec_T (C * C + D * D) 0) as [Hz|Hnz].
  - replace (Rltb (-1) 0) with true by (symmetry; apply Rltb_true; lra).
    exists 0. split; [lra|]. split.
    + f_equal. unfold A, B. ring.
    + split; [intros _; now right|]. split; intros; lra.
  - assert (Hpos : 0 < C * C + D * D) by (pose proof (sumsq_nonneg C D); lra).
    set (l := C * C + D * D) in *. set (dot := A * C + B * D).
    assert (Ht : dot / l * l = dot) by (field; assumption).
    destruct (Rltb (dot / l) 0) eqn:H0.
    + apply Rltb_true in H0. exists 0. split; [lra|]. split.
      * f_equal. unfold A, B. ring.
      * split; [intros _; left; nra|]. split; intros; lra.
    + apply Rltb_false in H0.
      destruct (Rgtb (dot / l) 1) eqn:H1.
      * apply Rgtb_true in H1. exists 1. split; [lra|]. split.
        -- f_equal. unfold A, B, C, D. ring.
        -- split; [intros; lra|]. split; [intros _; nra|intros; lra].
      * apply Rgtb_false in H1. exists (dot / l). split; [lra|]. split.
        -- f_equal. unfold A, B. ring.
        -- split; [intros E; left; rewrite E in Ht; lra|].
           split; [intros E; rewrite E in Ht; lra|intros _; exact Ht].
Qed.

(** X13: the distance to a mirror is never negative and never more than the
    distance to either endpoint of its segment. *)
Theorem distanceToMirror_bounds (point : Point) (mirror : MirrorProps) :
  let start := fst (getMirrorEndpoints mirror) in
  let end_ := snd (getMirrorEndpoints mirror) in
  0 <= distanceToMirror point mirror
  /\ distanceToMirror point mirror <= vectorLength (subtractVectors point start)
  /\ distanceToMirror point mirror <= vectorLength (subtractVectors point end_).
Proof.
  intros start end_.
  destruct (distanceToMirror_cases point mirror)
    as [t [Ht [E [H0 [H1 Hmid]]]]].
  fold start end_ in E, H0, H1, Hmid. rewrite E.
  unfold vectorLength, subtractVectors. cbn [x y].
  set (A := x point - x start) in *. set (B := y point - y start) in *.
  set (C := x end_ - x start) in *. set (D := y end_ - y start) in *.
  replace (x point - x end_) with (A - C) by (unfold A, C; ring).
  replace (y point - y end_) with (B - D) by (unfold B, D; ring).
  split; [apply sqrt_pos|].
  assert (Hcase : t = 0 \/ t = 1 \/ 0 < t < 1) by lra.
  pose proof (sumsq_nonneg C D) as Hl.
  split; apply sqrt_le_1; try apply sumsq_nonneg.
  - destruct Hcase as [->|[->|Hin]].
    + lra.
    + specialize (H1 eq_refl). nra.
    + specialize (Hmid Hin).
      replace ((A - t * C) * (A - t * C) + (B - t * D) * (B - t * D))
        with (A * A + B * B - 2 * t * (A * C + B * D)
              + t * (t * (C * C + D * D))) by ring.
      rewrite Hmid. rewrite <- Hmid. nra.
  - destruct Hcase as [->|[->|Hin]].
    + destruct (H0 eq_refl) as [Hd|Hz]; [nra|].
      assert (C = 0 /\ D = 0) as [-> ->] by (split; nra). lra.
    + lra.
    + specialize (Hmid Hin).
      replace ((A - C) * (A - C) + (B - D) * (B - D))
        with (A * A + B * B - 2 * (A * C + B * D) + (C * C + D * D)) by ring.
      replace ((A - t * C) * (A - t * C) + (B - t * D) * (B - t * D))
        with (A * A + B * B - 2 * t * (A * C + B * D)
              + t * (t * (C * C + D * D))) by ring.
      rewrite <- Hmid. set (l := C * C + D * D) in *. clearbody l.
      assert (Hsq : 0 <= l * ((1 - t) * (1 - t)))
        by (apply Rmult_le_pos; [assumption|nra]).
      lra.
Qed.

(** X14: every point of a mirror's segment is at distance 0 from the
    mirror. *)
Theorem distanceToMirror_on_segment (mirror : MirrorProps) (t : R) :
  0 <= t <= 1 ->
  let start := fst (getMirrorEndpoints mirror) in
  let end_ := snd (getMirrorEndpoints mirror) in
  distanceToMirror
    (mkPoint (x start + t * (x end_ - x start))
             (y start + t * (y end_ - y start))) mirror = 0.
Proof.
  intros Ht start end_.
  set (point := mkPoint _ _).
  destruct (distanceToMirror_cases point mirror)
    as [u [Hu [E [H0 [H1 Hmid]]]]].
  fold start end_ in E, H0, H1, Hmid. rewrite E.
  unfold point in *. cbn [x y] in *.
  set (C := x end_ - x start) in *. set (D := y end_ - y start) in *.
  replace (x start + t * C - x start) with (t * C) in * by ring.
  replace (y start + t * D - y start) with (t * D) in * by ring.
  pose proof (sumsq_nonneg C D) as Hl.
  assert (Hzero : (t - u) * (t - u) * (C * C + D * D) = 0).
  { assert (Hcase : u = 0 \/ u = 1 \/ 0 < u < 1) by lra.
    destruct Hcase as [->|[->|Hin]].
    - destruct (H0 eq_refl) as [Hd|Hz]; [|rewrite Hz; ring].
      replace (t * C * C + t * D * D) with (t * (C * C + D * D)) in Hd by ring.
      assert (t * (C * C + D * D) = 0) by nra. nra.
    - specialize (H1 eq_refl).
      replace (t * C * C + t * D * D) with (t * (C * C + D * D)) in H1 by ring.
      assert ((1 - t) * (C * C + D * D) = 0) by nra. nra.
    - specialize (Hmid Hin).
      replace (t * C * C + t * D * D) with (t * (C * C + D * D)) in Hmid by ring.
      replace ((t - u) * (t - u) * (C * C + D * D))
        with ((t - u) * (t * (C * C + D * D) - u * (C * C + D * D))) by ring.
      rewrite Hmid. ring. }
  replace ((t * C - u * C) * (t * C - u * C) + (t * D - u * D) * (t * D - u * D))
    with ((t - u) * (t - u) * (C * C + D * D)) by ring.
  rewrite Hzero. apply sqrt_0.
Qed.

Lemma distanceToMirror_on_segment_witness :
  distanceToMirror
    (mkPoint (x (fst (getMirrorEndpoints leftMirror))
              + / 2 * (x (snd (getMirrorEndpoints leftMirror))
                       - x (fst (getMirrorEndpoints leftMirror))))
             (y (fst (getMirrorEndpoints leftMirror))
              + / 2 * (y (snd (getMirrorEndpoints leftMirror))
                       - y (fst (getMirrorEndpoints leftMirror)))))
    leftMirror = 0.
Proof.
  apply (distanceToMirror_on_segment leftMirror (/ 2)). lra.
Defined.

(** ** Symmetries of the segment intersection *)

(** Two calls agree when they give up together and otherwise interpolate the
    same point. *)
Lemma lineIntersection_agree (p1 p2 p3 p4 q1 q2 q3 q4 : Point) :
  (noIntersection q1 q2 q3 q4 <-> noIntersection p1 p2 p3 p4) ->
  (~ noIntersection p1 p2 p3 p4 ->
   x q1 + uaOf q1 q2 q3 q4 * (x q2 - x q1)
     = x p1 + uaOf p1 p2 p3 p4 * (x p2 - x p1)
   /\ y q1 + uaOf q1 q2 q3 q4 * (y q2 - y q1)
     = y p1 + uaOf p1 p2 p3 p4 * (y p2 - y p1)) ->
  lineIntersection q1 q2 q3 q4 = lineIntersection p1 p2 p3 p4.
Proof.
  intros Hno Hpt.
  destruct (lineIntersection p1 p2 p3 p4) as [q|] eqn:E.
  - assert (Hn : ~ noIntersection p1 p2 p3 p4).
    { intros C. apply lineIntersection_None in C. congruence. }
    rewrite (lineIntersection_Some p1 p2 p3 p4 Hn) in E.
    rewrite lineIntersection_Some by (rewrite Hno; exact Hn).
    destruct (Hpt Hn) as [-> ->]. exact E.
  - apply lineIntersection_None. apply Hno. now apply lineIntersection_None.
Qed.

Lemma noIntersection_denom (p1 p2 p3 p4 : Point) :
  denomOf p1 p2 p3 p4 = 0 -> noIntersection p1 p2 p3 p4.
Proof. intros E. left. rewrite E, Rabs_R0. lra. Qed.

(** How the solved parameters change when a segment is reversed or the two
    segments are exchanged. *)
Lemma parameters_reversed (p1 p2 p3 p4 : Point) :
  denomOf p1 p2 p3 p4 <> 0 ->
  (denomOf p1 p2 p4 p3 = - denomOf p1 p2 p3 p4
   /\ uaOf p1 p2 p4 p3 = uaOf p1 p2 p3 p4
   /\ ubOf p1 p2 p4 p3 = 1 - ubOf p1 p2 p3 p4)
  /\ (denomOf p2 p1 p3 p4 = - denomOf p1 p2 p3 p4
      /\ uaOf p2 p1 p3 p4 = 1 - uaOf p1 p2 p3 p4
      /\ ubOf p2 p1 p3 p4 = ubOf p1 p2 p3 p4)
  /\ (denomOf p3 p4 p1 p2 = - denomOf p1 p2 p3 p4
      /\ uaOf p3 p4 p1 p2 = ubOf p1 p2 p3 p4
      /\ ubOf p3 p4 p1 p2 = uaOf p1 p2 p3 p4).
Proof.
  intros Hd.
  assert (E1 : denomOf p1 p2 p4 p3 = - denomOf p1 p2 p3 p4)
    by (unfold denomOf; ring).
  assert (E2 : denomOf p2 p1 p3 p4 = - denomOf p1 p2 p3 p4)
    by (unfold denomOf; ring).
  assert (E3 : denomOf p3 p4 p1 p2 = - denomOf p1 p2 p3 p4)
    by (unfold denomOf; ring).
  unfold uaOf, ubOf. rewrite E1, E2, E3.
  set (d := denomOf p1 p2 p3 p4) in *.
  assert (Hdef : d = (y p4 - y p3) * (x p2 - x p1) - (x p4 - x p3) * (y p2 - y p1))
    by reflexivity.
  clearbody d.
  repeat split; try reflexivity;
    apply Rminus_diag_uniq; field_simplify; try assumption;
    rewrite Hdef; field; rewrite <- Hdef; assumption.
Qed.

Lemma lineIntersection_reverse_first (p1 p2 p3 p4 : Point) :
  lineIntersection p2 p1 p3 p4 = lineIntersection p1 p2 p3 p4.
Proof.
  apply lineIntersection_agree.
  - destruct (Req_dec_T (denomOf p1 p2 p3 p4) 0) as [E|Hd].
    { pose proof (noIntersection_denom _ _ _ _ E).
      assert (noIntersection p2 p1 p3 p4)
        by (apply noIntersection_denom; unfold denomOf in *; lra).
      tauto. }
    destruct (parameters_reversed p1 p2 p3 p4 Hd) as [_ [[Ed [Ea Eb]] _]].
    unfold noIntersection. rewrite Ed, Ea, Eb, Rabs_Ropp. lra.
  - intros Hn.
    assert (Hd : denomOf p1 p2 p3 p4 <> 0)
      by (intros E; apply Hn; now apply noIntersection_denom).
    destruct (parameters_reversed p1 p2 p3 p4 Hd) as [_ [[_ [Ea _]] _]].
    rewrite Ea. split; ring.
Qed.

(** X15: over the reals the intersection of two segments does not depend on
    the direction either segment is given in, nor on which of the two comes
    first. *)
Theorem lineIntersection_symmetric (p1 p2 p3 p4 : Point) :
  lineIntersection p1 p2 p4 p3 = lineIntersection p1 p2 p3 p4
  /\ lineIntersection p2 p1 p3 p4 = lineIntersection p1 p2 p3 p4
  /\ lineIntersection p3 p4 p1 p2 = lineIntersection p1 p2 p3 p4.
Proof.
  assert (Hzero : denomOf p1 p2 p3 p4 = 0 ->
            noIntersection p1 p2 p4 p3 /\ noIntersection p3 p4 p1 p2).
  { intros E. split; apply noIntersection_denom; unfold denomOf in *; lra. }
  split; [|split; [apply lineIntersection_reverse_first|]];
    apply lineIntersection_agree.
  - destruct (Req_dec_T (denomOf p1 p2 p3 p4) 0) as [E|Hd].
    { pose proof (noIntersection_denom _ _ _ _ E). destruct (Hzero E). tauto. }
    destruct (parameters_reversed p1 p2 p3 p4 Hd) as [[Ed [Ea Eb]] _].
    unfold noIntersection. rewrite Ed, Ea, Eb, Rabs_Ropp. lra.
  - intros Hn.
    assert (Hd : denomOf p1 p2 p3 p4 <> 0)
      by (intros E; apply Hn; now apply noIntersection_denom).
    destruct (parameters_reversed p1 p2 p3 p4 Hd) as [[_ [Ea _]] _].
    rewrite Ea. now split.
  - destruct (Req_dec_T (denomOf p1 p2 p3 p4) 0) as [E|Hd].
    { pose proof (noIntersection_denom _ _ _ _ E). destruct (Hzero E). tauto. }
    destruct (parameters_reversed p1 p2 p3 p4 Hd) as [_ [_ [Ed [Ea Eb]]]].
    unfold noIntersection. rewrite Ed, Ea, Eb, Rabs_Ropp. lra.
  - intros Hn.
    assert (Hd : denomOf p1 p2 p3 p4 <> 0)
      by (intros E; apply Hn; now apply noIntersection_denom).
    destruct (parameters_reversed p1 p2 p3 p4 Hd) as [_ [_ [_ [Ea _]]]].
    rewrite Ea. destruct (intersection_on_second p1 p2 p3 p4 Hd) as [Hx Hy].
    now split.
Qed.

(** ** Line of sight *)

Lemma isDirectlyVisible_app (from to : Point) (l1 l2 : list MirrorProps) :
  isDirectlyVisible from to (l1 ++ l2)
  = isDirectlyVisible from to l1 && isDirectlyVisible from to l2.
Proof.
  induction l1 as [|m l1 IH]; cbn [app isDirectlyVisible]; [reflexivity|].
  destruct (getMirrorEndpoints m) as [s e].
  now destruct (truthy (lineIntersection from to s e)).
Qed.

(** X16: line of sight is symmetric in its two end points, and a list of
    mirrors lets a segment through exactly when each part of the list
    does. *)
Theorem isDirectlyVisible_symmetric (from to : Point)
    (l1 l2 : list MirrorProps) :
  isDirectlyVisible to from l1 = isDirectlyVisible from to l1
  /\ isDirectlyVisible from to (l1 ++ l2)
     = isDirectlyVisible from to l1 && isDirectlyVisible from to l2.
Proof.
  split; [|apply isDirectlyVisible_app].
  induction l1 as [|m l1 IH]; cbn [isDirectlyVisible]; [reflexivity|].
  destruct (getMirrorEndpoints m) as [s e].
  rewrite (lineIntersection_reverse_first from to s e).
  now rewrite IH.
Qed.

Lemma flat_mirror_endpoints (m : MirrorProps) :
  m_height m = 0 ->
  getMirrorEndpoints m = (m_position m, m_position m).
Proof.
  intros H. unfold getMirrorEndpoints. rewrite H.
  destruct (m_position m) as [px py]. cbn [x y].
  f_equal; f_equal; lra.
Qed.

(** X17: a point is in line of sight of itself whatever the mirrors, and a
    mirror of height 0 never blocks a line of sight. *)
Theorem isDirectlyVisible_degenerate (from to : Point)
    (m : MirrorProps) (mirrors : list MirrorProps) :
  isDirectlyVisible from from mirrors = true
  /\ (m_height m = 0 ->
      isDirectlyVisible from to (m :: mirrors)
      = isDirectlyVisible from to mirrors).
Proof.
  split.
  - induction mirrors as [|m' l IH]; cbn [isDirectlyVisible]; [reflexivity|].
    destruct (getMirrorEndpoints m') as [s e].
    replace (lineIntersection from from s e) with (@None Point); [exact IH|].
    symmetry. apply lineIntersection_None, noIntersection_denom.
    unfold denomOf. ring.
  - intros H. cbn [isDirectlyVisible]. rewrite (flat_mirror_endpoints m H).
    replace (lineIntersection from to (m_position m) (m_position m))
      with (@None Point); [reflexivity|].
    symmetry. apply lineIntersection_None, noIntersection_denom.
    unfold denomOf. ring.
Qed.

Lemma isDirectlyVisible_degenerate_witness :
  isDirectlyVisible (mkPoint 0 0) (mkPoint 0 100)
    [mkMirror 0 (mkPoint 0 50) 6 0 90 None None None]
  = isDirectlyVisible (mkPoint 0 0) (mkPoint 0 100) [].
Proof.
  destruct (isDirectlyVisible_degenerate (mkPoint 0 0) (mkPoint 0 100)
              (mkMirror 0 (mkPoint 0 50) 6 0 90 None None None) [])
    as [_ H].
  apply H. reflexivity.
Defined.

(** ** What the grouping always guarantees *)

Lemma groupsTrack_ext (P Q : MirrorProps -> MirrorProps -> Prop)
    (groups : list (list MirrorProps)) :
  (forall a b, P a b <-> Q a b) -> groupsTrack P groups -> groupsTrack Q groups.
Proof.
  intros HPQ [H1 [H2 H3]]. split; [exact H1|]. split.
  - intros g m Hg Hm. destruct (H2 g m Hg Hm) as [a [b [Hp H]]].
    exists a, b. split; [now apply HPQ|exact H].
  - intros a b Hq. apply H3. now apply HPQ.
Qed.

Lemma pushIfMissing_In (g : list MirrorProps) (m a : MirrorProps) :
  In a (pushIfMissing g m) -> In a g \/ a = m.
Proof.
  unfold pushIfMissing. destruct (includes g m); [now left|].
  rewrite in_app_iff. cbn [In]. intuition congruence.
Qed.

Lemma pushIfMissing_length (g : list MirrorProps) (m : MirrorProps) :
  (List.length g <= List.length (pushIfMissing g m))%nat.
Proof.
  unfold pushIfMissing. destruct (includes g m); [lia|].
  rewrite length_app. lia.
Qed.

Lemma includes_pair_l (a b : MirrorProps) : includes [a; b] a = true.
Proof. cbn. now rewrite same_mirror_refl. Qed.

Lemma includes_pair_r (a b : MirrorProps) : includes [a; b] b = true.
Proof. cbn. rewrite same_mirror_refl. now rewrite !orb_true_r. Qed.

(** One look at a pair. *)
Lemma groupPair_tracks (P : MirrorProps -> MirrorProps -> Prop)
    (mi mj : MirrorProps) (groups : list (list MirrorProps)) :
  groupsTrack P groups ->
  groupsTrack (fun a b => P a b \/ (a = mi /\ b = mj)) (groupPair mi groups mj).
Proof.
  intros [H1 [H2 H3]].
  destruct (areParallel mi mj) eqn:Hpar.
  2:{ rewrite groupPair_skew by assumption. split; [exact H1|]. split.
      - intros g m Hg Hm. destruct (H2 g m Hg Hm) as [a [b [Hp H]]].
        exists a, b. split; [now left|exact H].
      - intros a b [Hp|[-> ->]] Hab; [now apply H3|congruence]. }
  rewrite groupPair_parallel by assumption.
  destruct (mergeIntoGroups mi mj groups) as [groups'|] eqn:Hm.
  - apply mergeIntoGroups_Some in Hm as [l1 [g [l2 [E1 [E2 _]]]]].
    set (g' := pushIfMissing (pushIfMissing g mi) mj) in *.
    assert (Hg : In g groups) by (subst groups; apply in_elt).
    assert (Hmono : forall a, includes g a = true -> includes g' a = true)
      by (intros a Ha; unfold g'; now apply includes_push_mono, includes_push_mono).
    assert (Hi : includes g' mi = true)
      by (apply includes_push_mono, includes_pushed).
    assert (Hj : includes g' mj = true) by apply includes_pushed.
    assert (Hsplit : forall h, In h groups' -> h = g' \/ In h groups).
    { intros h Hh. subst groups' groups. apply in_app_or in Hh as [Hh|[<-|Hh]].
      - right. apply in_or_app. now left.
      - now left.
      - right. apply in_or_app. right. now right. }
    split; [|split].
    + intros h Hh. destruct (Hsplit h Hh) as [->|Hh']; [|now apply H1].
      pose proof (H1 g Hg). unfold g'.
      pose proof (pushIfMissing_length g mi).
      pose proof (pushIfMissing_length (pushIfMissing g mi) mj). lia.
    + intros h m Hh Hmem.
      assert (Hold : In h groups ->
                exists a b, (P a b \/ a = mi /\ b = mj)
                            /\ areParallel a b = true /\ (m = a \/ m = b)
                            /\ includes h a = true /\ includes h b = true).
      { intros Hh'. destruct (H2 h m Hh' Hmem) as [a [b [Hp H]]].
        exists a, b. split; [now left|exact H]. }
      destruct (Hsplit h Hh) as [->|Hh']; [|now apply Hold].
      unfold g' in Hmem.
      apply pushIfMissing_In in Hmem as [Hmem| ->].
      * apply pushIfMissing_In in Hmem as [Hmem| ->].
        -- destruct (H2 g m Hg Hmem) as [a [b [Hp [Hab [Hm' [Ha Hb]]]]]].
           exists a, b. repeat split; auto.
        -- exists mi, mj. repeat split; auto.
      * exists mi, mj. repeat split; auto.
    + intros a b [Hp|[-> ->]] Hab.
      * destruct (H3 a b Hp Hab) as [h [Hh [Ha Hb]]].
        subst groups. apply in_app_or in Hh as [Hh|[<-|Hh]].
        -- exists h. split; [|now split]. subst groups'.
           apply in_or_app. now left.
        -- exists g'. split; [subst groups'; apply in_elt|]. split; auto.
        -- exists h. split; [|now split]. subst groups'.
           apply in_or_app. right. now right.
      * exists g'. split; [subst groups'; apply in_elt|now split].
  - split; [|split].
    + intros h Hh. apply in_app_or in Hh as [Hh|[<-|[]]]; [now apply H1|].
      cbn. lia.
    + intros h m Hh Hmem. apply in_app_or in Hh as [Hh|[<-|[]]].
      * destruct (H2 h m Hh Hmem) as [a [b [Hp H]]].
        exists a, b. split; [now left|exact H].
      * exists mi, mj. split; [now right|]. split; [assumption|].
        split; [destruct Hmem as [<-|[<-|[]]]; auto|].
        split; [apply includes_pair_l|apply includes_pair_r].
    + intros a b [Hp|[-> ->]] Hab.
      * destruct (H3 a b Hp Hab) as [h [Hh H]].
        exists h. split; [apply in_or_app; now left|exact H].
      * exists [mi; mj]. split; [apply in_or_app; right; now left|].
        split; [apply includes_pair_l|apply includes_pair_r].
Qed.

Lemma innerLoop_tracks (mi : MirrorProps) (todo : list MirrorProps) :
  forall (P : MirrorProps -> MirrorProps -> Prop) groups,
    groupsTrack P groups ->
    groupsTrack (fun a b => P a b \/ (a = mi /\ In b todo))
                (fold_left (groupPair mi) todo groups).
Proof.
  induction todo as [|mj todo IH]; intros P groups H; cbn [fold_left].
  - apply (groupsTrack_ext P); [|exact H]. intros a b. cbn [In]. tauto.
  - apply groupPair_tracks with (mi := mi) (mj := mj) in H.
    apply IH in H. revert H. apply groupsTrack_ext.
    intros a b. cbn [In]. intuition (subst; auto).
Qed.

Lemma orderedIn_cons (m : MirrorProps) (l : list MirrorProps)
    (a b : MirrorProps) :
  orderedIn (m :: l) a b <-> (a = m /\ In b l) \/ orderedIn l a b.
Proof.
  unfold orderedIn. split.
  - intros [i [j [Hij [Hi Hj]]]]. destruct j as [|j]; [lia|].
    cbn [nth_error] in Hj. destruct i as [|i]; cbn [nth_error] in Hi.
    + left. split; [congruence|]. eapply nth_error_In; eassumption.
    + right. exists i, j. repeat split; [lia|assumption|assumption].
  - intros [[-> Hb]|[i [j [Hij [Hi Hj]]]]].
    + apply In_nth_error in Hb as [j Hj]. exists 0%nat, (S j).
      repeat split; [lia|assumption].
    + exists (S i), (S j). repeat split; [lia|assumption|assumption].
Qed.

Lemma groupLoop_tracks (l : list MirrorProps) :
  forall (P : MirrorProps -> MirrorProps -> Prop) groups,
    groupsTrack P groups ->
    groupsTrack (fun a b => P a b \/ orderedIn l a b) (groupLoop l groups).
Proof.
  induction l as [|mi rest IH]; intros P groups H; cbn [groupLoop].
  - apply (groupsTrack_ext P); [|exact H]. intros a b.
    split; [now left|]. intros [Hp|[i [j [_ [Hi _]]]]]; [exact Hp|].
    destruct i; discriminate.
  - apply innerLoop_tracks with (mi := mi) (todo := rest) in H.
    apply IH in H. revert H. apply groupsTrack_ext.
    intros a b. rewrite orderedIn_cons. tauto.
Qed.

Lemma findParallelMirrorGroups_tracks (mirrors : list MirrorProps) :
  groupsTrack (orderedIn mirrors) (findParallelMirrorGroups mirrors).
Proof.
  unfold findParallelMirrorGroups.
  apply (groupsTrack_ext (fun a b => False \/ orderedIn mirrors a b));
    [intros a b; tauto|].
  apply groupLoop_tracks. split; [intros g []|]. split; [intros g m []|].
  intros a b [].
Qed.

(** X18: every returned group has at least two entries, and each entry is
    one of a parallel pair [mirrors[i]], [mirrors[j]] ([i < j]) whose two
    mirrors are both in that group. *)
Theorem groups_come_from_pairs (mirrors : list MirrorProps) :
  Forall
    (fun g =>
       (2 <= List.length g)%nat
       /\ Forall
            (fun m =>
               exists a b, orderedIn mirrors a b /\ areParallel a b = true
                           /\ (m = a \/ m = b)
                           /\ includes g a = true /\ includes g b = true)
            g)
    (findParallelMirrorGroups mirrors).
Proof.
  destruct (findParallelMirrorGroups_tracks mirrors) as [H1 [H2 _]].
  apply Forall_forall. intros g Hg.
  split; [now apply H1|]. apply Forall_forall. intros m Hm. now apply H2.
Qed.

(** X19: every parallel pair [mirrors[i]], [mirrors[j]] with [i < j] ends up
    together in one of the groups; so the result is empty exactly when no
    such pair is parallel. *)
Theorem parallel_pairs_are_grouped (mirrors : list MirrorProps) :
  (forall a b, orderedIn mirrors a b -> areParallel a b = true ->
     exists g, In g (findParallelMirrorGroups mirrors)
               /\ includes g a = true /\ includes g b = true)
  /\ (findParallelMirrorGroups mirrors = []
      <-> forall a b, orderedIn mirrors a b -> areParallel a b = false).
Proof.
  destruct (findParallelMirrorGroups_tracks mirrors) as [H1 [H2 H3]].
  split; [exact H3|]. split.
  - intros E a b Hab. destruct (areParallel a b) eqn:Hp; [|reflexivity].
    destruct (H3 a b Hab Hp) as [g [Hg _]]. rewrite E in Hg. destruct Hg.
  - intros Hnone.
    destruct (findParallelMirrorGroups mirrors) as [|g rest] eqn:E;
      [reflexivity|].
    pose proof (H1 g (or_introl eq_refl)) as Hlen.
    destruct g as [|m g']; [cbn in Hlen; lia|].
    destruct (H2 (m :: g') m (or_introl eq_refl) (or_introl eq_refl))
      as [a [b [Hab [Hp _]]]].
    rewrite (Hnone a b Hab) in Hp. discriminate.
Qed.

(** ** What the image enumeration always guarantees *)

Lemma key_eqb_eq (k1 k2 : Key) : key_eqb k1 k2 = true <-> k1 = k2.
Proof.
  destruct k1 as [[a b] c], k2 as [[a' b'] c']. unfold key_eqb.
  rewrite !andb_true_iff, !Z.eqb_eq. split.
  - intros [[-> ->] ->]. reflexivity.
  - intros [= -> -> ->]. auto.
Qed.

Lemma map_has_In (im : list Key) (key : Key) :
  map_has im key = true <-> In key im.
Proof.
  unfold map_has. rewrite existsb_exists. split.
  - intros [k [Hk E]]. apply key_eqb_eq in E. now subst.
  - intros H. exists key. split; [assumption|now apply key_eqb_eq].
Qed.

Lemma NoDup_snoc {A : Type} (l : list A) (a : A) :
  NoDup l -> ~ In a l -> NoDup (l ++ [a]).
Proof.
  induction l as [|b l IH]; intros Hnd Hin; cbn [app].
  - constructor; [intros []|constructor].
  - apply NoDup_cons_iff in Hnd as [Hb Hnd]. constructor.
    + rewrite in_app_iff. cbn [In]. intros [H|[H|[]]]; [now apply Hb|].
      apply Hin. now left.
    + apply IH; [assumption|]. intros H. apply Hin. now right.
Qed.

Lemma seedOk_grow (os : R) (k : Z) (rs rs' : list VirtualImage)
    (vo : VirtualObject) :
  (forall img, In img rs -> In img rs') ->
  seedOk os k rs vo -> seedOk os k rs' vo.
Proof.
  intros Hinc [Hs [H|[prev [Hin H]]]]; (split; [exact Hs|]);
    [now left|right]. exists prev. split; [now apply Hinc|exact H].
Qed.

(** One mirror tried on one seed. *)
Lemma reflectIn_ok (os : R) (mirrors : list MirrorProps) (k : Z)
    (vo : VirtualObject) (st : PassState) (mirror : MirrorProps) :
  (1 <= k)%Z -> In mirror mirrors ->
  passOk os mirrors k st -> seedOk os k (results st) vo ->
  passOk os mirrors k (reflectIn k vo st mirror)
  /\ forall img, In img (results st) ->
                 In img (results (reflectIn k vo st mirror)).
Proof.
  intros Hk Hmirror Hst [Hsize Hseed].
  pose proof Hst as [Hmap [[Hnd [Hfields Hchain]] Hseeds]].
  unfold reflectIn.
  destruct (same_mirror_opt mirror (vo_sourceMirror vo)) eqn:Hsame;
    [split; [exact Hst|auto]|].
  set (virtual := calculateVirtualImagePosition _ mirror).
  set (key := (Math_round (x (v_position virtual)),
               Math_round (y (v_position virtual)), k)).
  destruct (map_has (imageMap st) key) eqn:Hhas;
    [split; [exact Hst|auto]|].
  set (img := mkImage (v_position virtual) (v_direction virtual)
                      (v_size virtual) k mirror).
  assert (Hfresh : ~ In key (imageMap st)).
  { intros H. apply map_has_In in H. congruence. }
  assert (Hgrow : forall i, In i (results st) -> In i (results st ++ [img]))
    by (intros i Hi; apply in_or_app; now left).
  unfold passOk, imagesOk.
  cbn [imageMap results newVirtualObjects]. split; [|exact Hgrow].
  split; [|split; [split; [|split]|]].
  - unfold map_set. rewrite Hhas, map_app, Hmap. reflexivity.
  - rewrite map_app. cbn [map]. apply NoDup_snoc; [assumption|].
    now rewrite <- Hmap.
  - intros i Hi. apply in_app_or in Hi as [Hi|[<-|[]]]; [now apply Hfields|].
    unfold img, virtual. cbn [v_order v_size v_sourceMirror
                             calculateVirtualImagePosition o_size].
    repeat split; try lia; assumption.
  - intros i Hi Hord. apply in_app_or in Hi as [Hi|[<-|[]]].
    + destruct (Hchain i Hi Hord) as [prev [Hp H]].
      exists prev. split; [now apply Hgrow|exact H].
    + unfold img in Hord |- *. cbn [v_order v_sourceMirror] in Hord |- *.
      destruct Hseed as [[E _]|[prev [Hp [Ho Hs]]]]; [lia|].
      exists prev. split; [now apply Hgrow|]. split; [exact Ho|].
      rewrite Hs in Hsame. cbn [same_mirror_opt] in Hsame.
      unfold same_mirror in *. now rewrite Nat.eqb_sym.
  - intros v Hv. apply in_app_or in Hv as [Hv|[<-|[]]].
    + eapply seedOk_grow; [exact Hgrow|now apply Hseeds].
    + split; [exact Hsize|]. right. exists img.
      split; [apply in_or_app; right; now left|].
      unfold img. cbn [v_order v_sourceMirror vo_sourceMirror].
      split; [lia|reflexivity].
Qed.

Lemma mirrorsLoop_ok (os : R) (mirrors : list MirrorProps) (k : Z)
    (vo : VirtualObject) (todo : list MirrorProps) :
  (1 <= k)%Z -> incl todo mirrors ->
  forall st,
    passOk os mirrors k st -> seedOk os k (results st) vo ->
    passOk os mirrors k (fold_left (reflectIn k vo) todo st)
    /\ forall img, In img (results st) ->
                   In img (results (fold_left (reflectIn k vo) todo st)).
Proof.
  intros Hk. induction todo as [|m todo IH]; intros Hincl st Hst Hseed;
    cbn [fold_left]; [now split|].
  destruct (reflectIn_ok os mirrors k vo st m Hk (Hincl m (or_introl eq_refl))
              Hst Hseed) as [Hst1 Hgrow1].
  destruct (IH (fun a Ha => Hincl a (or_intror Ha)) _ Hst1
              (seedOk_grow _ _ _ _ _ Hgrow1 Hseed)) as [Hst2 Hgrow2].
  split; [exact Hst2|]. intros img Hi. now apply Hgrow2, Hgrow1.
Qed.

Lemma reflectionPass_ok (os : R) (mirrors : list MirrorProps) (k : Z)
    (vos : list VirtualObject) :
  (1 <= k)%Z ->
  forall st,
    passOk os mirrors k st ->
    (forall vo, In vo vos -> seedOk os k (results st) vo) ->
    passOk os mirrors k (reflectionPass k mirrors vos st).
Proof.
  intros Hk. unfold reflectionPass.
  induction vos as [|vo vos IH]; intros st Hst Hseeds; cbn [fold_left];
    [exact Hst|].
  destruct (mirrorsLoop_ok os mirrors k vo mirrors Hk (fun a Ha => Ha) st Hst
              (Hseeds vo (or_introl eq_refl))) as [Hst1 Hgrow1].
  apply IH; [exact Hst1|]. intros v Hv.
  eapply seedOk_grow; [exact Hgrow1|]. apply Hseeds. now right.
Qed.

Lemma imagesOk_deeper (os : R) (mirrors : list MirrorProps) (k k' : Z)
    (rs : list VirtualImage) :
  (k <= k')%Z -> imagesOk os mirrors k rs -> imagesOk os mirrors k' rs.
Proof.
  intros Hk [Hnd [Hf Hc]]. split; [exact Hnd|]. split; [|exact Hc].
  intros img Hi. destruct (Hf img Hi) as [Ho H]. split; [lia|exact H].
Qed.

Lemma reflectionLoop_ok (os : R) (mirrors : list MirrorProps) (n : nat) :
  forall (k : Z) vos im rs,
    (1 <= k)%Z -> im = map imageKey rs ->
    imagesOk os mirrors (k - 1) rs ->
    (forall vo, In vo vos -> seedOk os k rs vo) ->
    imagesOk os mirrors (k - 1 + Z.of_nat n)
             (reflectionLoop n k mirrors vos im rs).
Proof.
  induction n as [|n IH]; intros k vos im rs Hk Him Hrs Hseeds.
  - cbn [reflectionLoop]. now rewrite Z.add_0_r.
  - cbn [reflectionLoop].
    assert (Hst : passOk os mirrors k (mkPass im rs [])).
    { split; [exact Him|]. split; [|intros vo []].
      apply (imagesOk_deeper os mirrors (k - 1)); [lia|exact Hrs]. }
    pose proof (reflectionPass_ok os mirrors k vos Hk _ Hst Hseeds)
      as [Hmap [Hok Hnew]].
    replace (k - 1 + Z.of_nat (S n))%Z with (k + 1 - 1 + Z.of_nat n)%Z by lia.
    apply IH; [lia|exact Hmap| |exact Hnew].
    now replace (k + 1 - 1)%Z with k by lia.
Qed.

Lemma calculateParallelMirrorImages_ok (object : ObjectProps)
    (mirrors : list MirrorProps) (maxReflections : Z) :
  imagesOk (o_size object) mirrors (Z.max 0 maxReflections)
           (calculateParallelMirrorImages object mirrors maxReflections).
Proof.
  unfold calculateParallelMirrorImages.
  destruct (List.length mirrors <? 2)%nat.
  { split; [constructor|]. split; intros img []. }
  match goal with
  | |- imagesOk _ _ _ (map _ ?rs) =>
      assert (Hok : imagesOk (o_size object) mirrors (Z.max 0 maxReflections) rs)
  end.
  { replace (Z.max 0 maxReflections)
      with (1 - 1 + Z.of_nat (Z.to_nat maxReflections))%Z by lia.
    apply reflectionLoop_ok; [lia|reflexivity| |].
    - split; [constructor|]. split; intros img [].
    - intros vo [<-|[]]. split; [reflexivity|]. left. now split. }
  match goal with
  | |- imagesOk _ _ _ (map ?f ?rs) => replace (map f rs) with rs; [exact Hok|]
  end.
  symmetry. rewrite <- map_id. apply map_ext_in.
  intros img Hi. destruct Hok as [_ [Hf _]].
  destruct (Hf img Hi) as [_ [Hs _]]. destruct img. cbn in *. now subst.
Qed.

(** X20: every image returned has an order between 1 and [maxReflections],
    the size of the object, and a mirror of the given list as its source; in
    particular nothing is returned when [maxReflections] is below 1. *)
Theorem parallel_images_fields (object : ObjectProps)
    (mirrors : list MirrorProps) (maxReflections : Z) :
  Forall
    (fun img =>
       (1 <= v_order img <= maxReflections)%Z
       /\ v_size img = o_size object
       /\ In (v_sourceMirror img) mirrors)
    (calculateParallelMirrorImages object mirrors maxReflections)
  /\ ((maxReflections < 1)%Z ->
      calculateParallelMirrorImages object mirrors maxReflections = []).
Proof.
  destruct (calculateParallelMirrorImages_ok object mirrors maxReflections)
    as [_ [Hf _]].
  assert (Hall : forall img,
            In img (calculateParallelMirrorImages object mirrors maxReflections) ->
            (1 <= v_order img <= maxReflections)%Z
            /\ v_size img = o_size object /\ In (v_sourceMirror img) mirrors).
  { intros img Hi. destruct (Hf img Hi) as [Ho H]. split; [lia|exact H]. }
  split; [now apply Forall_forall|].
  intros Hmax.
  destruct (calculateParallelMirrorImages object mirrors maxReflections)
    as [|img rest]; [reflexivity|].
  destruct (Hall img (or_introl eq_refl)) as [Ho _]. lia.
Qed.

Lemma parallel_images_fields_witness :
  calculateParallelMirrorImages midObject [leftMirror; rightMirror] 0 = [].
Proof.
  destruct (parallel_images_fields midObject [leftMirror; rightMirror] 0)
    as [_ H].
  apply H. lia.
Defined.

(** X21: no two images returned share both their order and their position
    rounded to the nearest integers. *)
Theorem parallel_images_distinct (object : ObjectProps)
    (mirrors : list MirrorProps) (maxReflections : Z) :
  NoDup (map imageKey
             (calculateParallelMirrorImages object mirrors maxReflections)).
Proof.
  destruct (calculateParallelMirrorImages_ok object mirrors maxReflections)
    as [Hnd _].
  exact Hnd.
Qed.

(** X22: for every returned image of order above 1, the lookup that
    [drawLightRay] performs in the returned list finds an image of the order
    just below with another source mirror. *)
Theorem parallel_images_chain (object : ObjectProps)
    (mirrors : list MirrorProps) (maxReflections : Z) :
  let images := calculateParallelMirrorImages object mirrors maxReflections in
  Forall
    (fun img =>
       (1 < v_order img)%Z ->
       exists prev,
         findPrevImage (Some images) img = Some prev
         /\ In prev images
         /\ v_order prev = (v_order img - 1)%Z
         /\ same_mirror (v_sourceMirror prev) (v_sourceMirror img) = false)
    images.
Proof.
  intros images.
  destruct (calculateParallelMirrorImages_ok object mirrors maxReflections)
    as [_ [_ Hchain]].
  fold images in Hchain.
  apply Forall_forall. intros img Hi Hord.
  destruct (Hchain img Hi Hord) as [prev [Hp [Ho Hs]]].
  unfold findPrevImage.
  destruct (find _ images) as [found|] eqn:E.
  - exists found. split; [reflexivity|].
    apply find_some in E as [Hin Hf].
    apply andb_prop in Hf as [H1 H2].
    split; [exact Hin|]. split; [now apply Z.eqb_eq|].
    now apply negb_true_iff in H2.
  - exfalso. pose proof (find_none _ _ E prev Hp) as Hf. cbn beta in Hf.
    rewrite Ho, Z.eqb_refl, Hs in Hf. discriminate.
Qed.

(** ** Who can see a first-order image *)



(** ** Visibility and the lists it is asked about *)

Lemma isDirectlyVisible_incl (from to : Point) (l l' : list MirrorProps) :
  incl l' l ->
  isDirectlyVisible from to l = true -> isDirectlyVisible from to l' = true.
Proof.
  intros Hincl H. apply isDirectlyVisible_true.
  intros m Hm. apply (proj1 (isDirectlyVisible_true from to l) H).
  now apply Hincl.
Qed.

(** X24: an image is visible to a joint list of observers exactly when it is
    visible to one of the two lists, and taking mirrors away never hides an
    image. *)
Theorem isImageVisible_monotone (o1 o2 : list ObserverProps)
    (mirrors mirrors' : list MirrorProps) (p : Point) (mirror : MirrorProps) :
  isImageVisible (o1 ++ o2) mirrors p mirror
  = isImageVisible o1 mirrors p mirror || isImageVisible o2 mirrors p mirror
  /\ (incl mirrors' mirrors ->
      isImageVisible o1 mirrors p mirror = true ->
      isImageVisible o1 mirrors' p mirror = true).
Proof.
  split.
  - induction o1 as [|o rest IH]; [reflexivity|].
    cbn [app isImageVisible].
    destruct (Rltb _ 0 && isDirectlyVisible _ _ _); [reflexivity|exact IH].
  - intros Hincl.
    induction o1 as [|o rest IH]; [discriminate|].
    cbn [isImageVisible].
    destruct (Rltb _ 0) eqn:Hs; cbn [andb]; [|exact IH].
    destruct (isDirectlyVisible (ob_position o) p
                (filter (fun m => negb (same_mirror m mirror)) mirrors)) eqn:Hv.
    + intros _.
      rewrite (isDirectlyVisible_incl (ob_position o) p
                 (filter (fun m => negb (same_mirror m mirror)) mirrors)
                 (filter (fun m => negb (same_mirror m mirror)) mirrors'));
        [reflexivity| |exact Hv].
      intros m Hm. apply filter_In in Hm as [Hm Hne].
      apply filter_In. split; [now apply Hincl|exact Hne].
    + intros H. specialize (IH H).
      destruct (isDirectlyVisible (ob_position o) p
                  (filter (fun m => negb (same_mirror m mirror)) mirrors'));
        [reflexivity|exact IH].
Qed.

(** An observer between the default mirrors sees the point behind the left
    one. *)
Lemma leftImage_visible :
  isImageVisible [mkObserver (mkPoint 200 400) 40 "#1E90FF"] [leftMirror]
                 (mkPoint (-200) 250) leftMirror = true.
Proof.
  cbn [isImageVisible filter same_mirror m_ref leftMirror Nat.eqb negb
       isDirectlyVisible].
  unfold dotProduct, subtractVectors, getMirrorNormal.
  cbn [ob_position m_position m_rotation leftMirror x y].
  rewrite radians_180, cos_PI, sin_PI.
  replace (Rltb _ 0) with true; [reflexivity|].
  symmetry. apply Rltb_true. lra.
Qed.

Lemma isImageVisible_monotone_witness :
  isImageVisible [mkObserver (mkPoint 200 400) 40 "#1E90FF"] []
                 (mkPoint (-200) 250) leftMirror = true.
Proof.
  destruct (isImageVisible_monotone
              [mkObserver (mkPoint 200 400) 40 "#1E90FF"] []
              [leftMirror] [] (mkPoint (-200) 250) leftMirror) as [_ H].
  apply H.
  - intros m [].
  - exact leftImage_visible.
Defined.

(** ** The strokes of a reconstructed ray *)

Lemma drawPath_app (ctx : Canvas) (a b : Point) (d : bool) (c : option string) :
  drawPath ctx a b d c = ctx ++ [mkStroke a b d (strokeColor c)].
Proof. reflexivity. Qed.

(** What the backward walk adds: solid strokes of the ray's colour, at most
    [order] of them. *)
Lemma traceBack_strokes (fuel : nat) (parallelImage : option (list VirtualImage))
    (object : ObjectProps) (color : option string) :
  forall (cur : Point) (img : VirtualImage) (ctx ctx' : Canvas),
    traceBack fuel parallelImage object color cur img ctx = Some ctx' ->
    exists more,
      ctx' = ctx ++ more
      /\ Forall (fun s => s_color s = strokeColor color /\ s_dashed s = false)
                more
      /\ (List.length more
          <= if (1 <? v_order img)%Z then Z.to_nat (v_order img) else 0)%nat.
Proof.
  assert (Hnil : forall ctx : Canvas, exists more,
             ctx = ctx ++ more
             /\ Forall (fun s => s_color s = strokeColor color
                                 /\ s_dashed s = false) more
             /\ (List.length more <= 0)%nat).
  { intros ctx. exists []. rewrite app_nil_r. repeat split; auto. }
  assert (Hweak : forall (ctx : Canvas) (n : nat), exists more,
             ctx = ctx ++ more
             /\ Forall (fun s => s_color s = strokeColor color
                                 /\ s_dashed s = false) more
             /\ (List.length more <= n)%nat).
  { intros ctx n. destruct (Hnil ctx) as [more [E [Hf Hl]]].
    exists more. repeat split; auto. lia. }
  induction fuel as [|fuel IH]; intros cur img ctx ctx'; cbn [traceBack].
  - destruct (1 <? v_order img)%Z; cbn [negb]; [discriminate|].
    intros [= <-]. apply Hnil.
  - destruct (1 <? v_order img)%Z eqn:Hord; cbn [negb];
      [|intros [= <-]; apply Hnil].
    destruct (findPrevImage parallelImage img) as [prev|] eqn:Hfind;
      [|intros [= <-]; apply Hweak].
    destruct (getMirrorEndpoints (v_sourceMirror prev)) as [ps pe].
    destruct (lineIntersection cur (v_position prev) ps pe) as [pi|];
      [|intros [= <-]; apply Hweak].
    apply findPrevImage_order in Hfind. apply Z.ltb_lt in Hord.
    intros H. apply IH in H as [more [E [Hf Hl]]].
    rewrite !drawPath_app in E.
    destruct (Z.eqb_spec (v_order prev) 1) as [E1|N1].
    + rewrite <- !app_assoc in E. cbn [app] in E.
      eexists. split; [exact E|]. split.
      * repeat constructor; assumption.
      * replace (1 <? v_order prev)%Z with false in Hl
          by (symmetry; apply Z.ltb_ge; lia).
        cbn [List.length]. lia.
    + rewrite <- !app_assoc in E. cbn [app] in E.
      eexists. split; [exact E|]. split.
      * repeat constructor; assumption.
      * cbn [List.length].
        destruct (1 <? v_order prev)%Z eqn:Hp; [|lia].
        apply Z.ltb_lt in Hp. lia.
Qed.

(** X25: [drawLightRay] only adds strokes, all in the colour of the image's
    order, of which the second one (mirror to image) is dashed and no other;
    it adds none when the line from the image to the observer misses the
    mirror, and never more than [order + 2] (three for an order below 1). *)
Theorem drawLightRay_strokes (ctx : Canvas) (virtualImage : VirtualImage)
    (object : ObjectProps) (observer : ObserverProps) (mirror : MirrorProps)
    (parallelImage : option (list VirtualImage)) :
  exists more,
    drawLightRay ctx virtualImage object observer mirror parallelImage
    = Some (ctx ++ more)
    /\ rayStrokes (getColorForOrder (v_order virtualImage)) more
    /\ (List.length more <= 2 + Z.to_nat (Z.max 1 (v_order virtualImage)))%nat
    /\ (lineIntersection (v_position virtualImage) (ob_position observer)
          (fst (getMirrorEndpoints mirror)) (snd (getMirrorEndpoints mirror))
        = None -> more = []).
Proof.
  unfold drawLightRay.
  destruct (getMirrorEndpoints mirror) as [ms me]. cbn [fst snd].
  destruct (lineIntersection _ _ ms me) as [mi|].
  2:{ exists []. rewrite app_nil_r. split; [reflexivity|].
      split; [split; [constructor|now left]|].
      split; [cbn [List.length]; lia|reflexivity]. }
  set (color := getColorForOrder (v_order virtualImage)).
  rewrite !drawPath_app.
  destruct (Z.eqb_spec (v_order virtualImage) 1) as [E1|N1].
  - rewrite <- !app_assoc. cbn [app].
    eexists. split; [reflexivity|]. split; [split|split].
    + repeat constructor.
    + right. do 3 eexists. split; [reflexivity|]. repeat constructor.
    + rewrite E1. cbn. lia.
    + discriminate.
  - match goal with
    | |- context [traceBack ?f _ _ ?c ?p ?i ?c0] =>
        destruct (traceBack_total f parallelImage object c p i c0)
          as [ctx' [E _]]; [unfold traceFuel; lia|]
    end.
    rewrite E.
    apply traceBack_strokes in E as [more [-> [Hf Hl]]].
    rewrite <- !app_assoc. cbn [app].
    eexists. split; [reflexivity|]. split; [split|split].
    + repeat constructor. apply Forall_forall. intros s Hs.
      now apply (proj1 (Forall_forall _ _) Hf).
    + right. do 3 eexists. split; [reflexivity|]. repeat split.
      apply Forall_forall. intros s Hs.
      now apply (proj1 (Forall_forall _ _) Hf).
    + cbn [List.length].
      destruct (1 <? v_order virtualImage)%Z eqn:Ho; lia.
    + discriminate.
Qed.

(** ** Geometry of a virtual mirror *)

Lemma reflectPoint_coords (mirror : MirrorProps) (p : Point) :
  let n := getMirrorNormal mirror in
  let d := dotProduct (subtractVectors p (m_position mirror)) n in
  reflectPoint mirror p
  = mkPoint (x p - 2 * d * x n) (y p - 2 * d * y n).
Proof. reflexivity. Qed.

(** The parts of [calculateVirtualMirror] in terms of the reflected
    endpoints. *)
Lemma calculateVirtualMirror_parts (fresh : nat)
    (sourceMirror reflectingMirror : MirrorProps) :
  let vs := reflectPoint reflectingMirror (fst (getMirrorEndpoints sourceMirror)) in
  let ve := reflectPoint reflectingMirror (snd (getMirrorEndpoints sourceMirror)) in
  calculateVirtualMirror fresh sourceMirror reflectingMirror
  = mkMirror fresh
      (mkPoint ((x vs + x ve) / 2) ((y vs + y ve) / 2))
      (m_width sourceMirror)
      (sqrt ((x ve - x vs) ^ 2 + (y ve - y vs) ^ 2))
      ((Math_atan2 (x ve - x vs) (- (y ve - y vs)) * 180) / PI)
      (Some true) (Some 1%Z) (Some reflectingMirror).
Proof. reflexivity. Qed.

(** The reflected segment is as long as the source's: [height], up to
    sign. *)
Lemma reflected_span (sourceMirror reflectingMirror : MirrorProps) :
  let vs := reflectPoint reflectingMirror (fst (getMirrorEndpoints sourceMirror)) in
  let ve := reflectPoint reflectingMirror (snd (getMirrorEndpoints sourceMirror)) in
  (x ve - x vs) * (x ve - x vs) + (y ve - y vs) * (y ve - y vs)
  = m_height sourceMirror * m_height sourceMirror.
Proof.
  intros vs ve.
  pose proof (normal_unit reflectingMirror) as Hn.
  pose proof (cos_sin_unit (m_rotation sourceMirror * PI / 180)) as Hs.
  unfold vs, ve. rewrite !reflectPoint_coords. cbv zeta.
  unfold getMirrorEndpoints, dotProduct, subtractVectors. cbn [fst snd x y].
  set (n := getMirrorNormal reflectingMirror) in *.
  set (c := cos _) in *. set (s := sin _) in *.
  set (h := m_height sourceMirror).
  set (e := - (s * h) * x n + c * h * y n).
  transitivity (h * h * (c * c + s * s) - 4 * e * e
                + 4 * e * e * (x n * x n + y n * y n)).
  { unfold e. field. }
  rewrite Hn, Hs. ring.
Qed.

(** X26: the virtual mirror of [sourceMirror] in [reflectingMirror] is
    centred at the mirror image of the source's centre, keeps the source's
    width, has the source's height up to sign, and remembers the reflecting
    mirror. *)
Theorem calculateVirtualMirror_geometry (fresh : nat)
    (sourceMirror reflectingMirror : MirrorProps) :
  let v := calculateVirtualMirror fresh sourceMirror reflectingMirror in
  m_position v = reflectPoint reflectingMirror (m_position sourceMirror)
  /\ m_width v = m_width sourceMirror
  /\ m_height v = Rabs (m_height sourceMirror)
  /\ m_sourceMirror v = Some reflectingMirror
  /\ m_isVirtual v = Some true /\ m_order v = Some 1%Z.
Proof.
  intros v. unfold v. rewrite calculateVirtualMirror_parts.
  cbn [m_position m_width m_height m_sourceMirror m_isVirtual m_order].
  repeat split.
  - rewrite !reflectPoint_coords. cbv zeta.
    unfold getMirrorEndpoints, dotProduct, subtractVectors. cbn [fst snd x y].
    f_equal; field.
  - pose proof (reflected_span sourceMirror reflectingMirror) as Hspan.
    cbv zeta in Hspan. cbn [pow]. rewrite !Rmult_1_r. rewrite Hspan.
    apply (sqrt_Rsqr_abs (m_height sourceMirror)).
Qed.

Lemma reflectAll_In_form (k : Z) (alloc : nat)
    (ps : list (MirrorProps * MirrorProps)) (v : MirrorProps) :
  In v (reflectAll k alloc ps) ->
  exists a s r, In (s, r) ps /\ v = tagVirtual k (calculateVirtualMirror a s r).
Proof.
  revert alloc. induction ps as [|[s r] ps IH]; intros alloc; cbn [reflectAll In].
  - intros [].
  - intros [<-|H].
    + exists alloc, s, r. split; [now left|reflexivity].
    + destruct (IH _ H) as [a [s' [r' [Hin E]]]].
      exists a, s', r'. split; [now right|exact E].
Qed.

Lemma tagVirtual_size (k : Z) (fresh : nat) (s r : MirrorProps) :
  m_width (tagVirtual k (calculateVirtualMirror fresh s r)) = m_width s
  /\ m_height (tagVirtual k (calculateVirtualMirror fresh s r))
     = Rabs (m_height s).
Proof.
  rewrite calculateVirtualMirror_parts. cbn [tagVirtual m_width m_height].
  split; [reflexivity|].
  pose proof (reflected_span s r) as Hspan. cbv zeta in Hspan.
  cbn [pow]. rewrite !Rmult_1_r. rewrite Hspan.
  apply (sqrt_Rsqr_abs (m_height s)).
Qed.

(** X27: every virtual mirror returned, of either order, has the width of
    one of the real mirrors and that mirror's height up to sign. *)
Theorem virtual_mirrors_keep_size (alloc : nat) (mirrors : list MirrorProps) :
  Forall
    (fun v => exists m, In m mirrors /\ m_width v = m_width m
                        /\ m_height v = Rabs (m_height m))
    (calculateVirtualMirrors alloc mirrors).
Proof.
  rewrite calculateVirtualMirrors_eq. cbv zeta.
  set (first := reflectAll 1 alloc (orderedPairs mirrors)).
  assert (Hfirst : forall v, In v first ->
            exists m, In m mirrors /\ m_width v = m_width m
                      /\ m_height v = Rabs (m_height m)).
  { intros v Hv. apply reflectAll_In_form in Hv as [a [s [r [Hp ->]]]].
    apply orderedPairs_In in Hp as [i [j [_ [Hi _]]]].
    exists s. split; [eapply nth_error_In; eassumption|].
    apply tagVirtual_size. }
  apply Forall_forall. intros w Hw. apply in_app_or in Hw as [Hw|Hw].
  - now apply Hfirst.
  - apply reflectAll_In_form in Hw as [a [v [r [Hp ->]]]].
    apply secondPairs_In in Hp as [Hv _].
    destruct (Hfirst v Hv) as [m [Hm [Hwid Hhei]]].
    exists m. split; [exact Hm|].
    destruct (tagVirtual_size 2 a v r) as [-> ->].
    split; [exact Hwid|]. rewrite Hhei. apply Rabs_Rabsolu.
Qed.

(** ** The rotation recovered for a virtual mirror *)

Lemma sqrt_one_plus_ratio (a b : R) :
  0 < a ->
  sqrt (1 + (b / a)²) = sqrt (a * a + b * b) / a.
Proof.
  intros Ha.
  assert (Hr : 0 <= sqrt (a * a + b * b)) by apply sqrt_pos.
  apply sqrt_lem_1.
  - unfold Rsqr. pose proof (sumsq_nonneg 1 (b / a)). lra.
  - apply Rmult_le_pos; [assumption|]. left. now apply Rinv_0_lt_compat.
  - transitivity (sqrt (a * a + b * b) * sqrt (a * a + b * b) / (a * a)).
    { field. lra. }
    rewrite sqrt_sqrt by apply sumsq_nonneg. unfold Rsqr. field. lra.
Qed.

(** Sine and cosine of the two-argument arctangent, without dividing. *)
Lemma Math_atan2_trig (b a : R) :
  let r := sqrt (a * a + b * b) in
  sin (Math_atan2 b a) * r = b /\ cos (Math_atan2 b a) * r = a.
Proof.
  intros r. unfold Math_atan2.
  assert (Hr : 0 <= r) by apply sqrt_pos.
  destruct (Rlt_dec 0 a) as [Hpos|Hnpos].
  - rewrite sin_atan, cos_atan, (sqrt_one_plus_ratio a b Hpos). fold r.
    assert (Hr0 : r <> 0).
    { intros E. unfold r in E. apply sqrt_eq_0 in E; [nra|apply sumsq_nonneg]. }
    split; field; split; lra.
  - destruct (Rlt_dec a 0) as [Hneg|Hnneg].
    + assert (Hq : sqrt (1 + (b / a)²) = r / - a).
      { replace ((b / a)²) with ((- b / - a)²)
          by (unfold Rsqr; field; lra).
        rewrite (sqrt_one_plus_ratio (- a) (- b)) by lra.
        unfold r. do 2 f_equal. ring. }
      assert (Hr0 : r <> 0).
      { intros E. unfold r in E. apply sqrt_eq_0 in E; [nra|apply sumsq_nonneg]. }
      destruct (Rle_dec 0 b).
      * rewrite neg_sin, neg_cos, sin_atan, cos_atan, Hq.
        split; field; split; lra.
      * rewrite sin_minus, cos_minus, cos_PI, sin_PI, sin_atan, cos_atan, Hq.
        split; field; split; lra.
    + assert (Ha : a = 0) by lra. subst a.
      assert (Er : r = Rabs b).
      { unfold r. replace (0 * 0 + b * b) with (Rsqr b) by (unfold Rsqr; ring).
        apply sqrt_Rsqr_abs. }
      rewrite Er.
      destruct (Rlt_dec 0 b).
      * rewrite sin_PI2, cos_PI2, Rabs_right by lra. split; ring.
      * destruct (Rlt_dec b 0).
        -- rewrite sin_neg, cos_neg, sin_PI2, cos_PI2, Rabs_left by lra.
           split; ring.
        -- assert (b = 0) by lra. subst b.
           rewrite sin_0, cos_0, Rabs_R0. split; ring.
Qed.

(** X28: the segment of a virtual mirror is the mirror image of the source's
    segment: its endpoints are the reflected endpoints of the source, in the
    opposite order. *)
Theorem virtual_mirror_segment (fresh : nat)
    (sourceMirror reflectingMirror : MirrorProps) :
  getMirrorEndpoints (calculateVirtualMirror fresh sourceMirror reflectingMirror)
  = (reflectPoint reflectingMirror (snd (getMirrorEndpoints sourceMirror)),
     reflectPoint reflectingMirror (fst (getMirrorEndpoints sourceMirror))).
Proof.
  rewrite calculateVirtualMirror_parts. cbv zeta.
  set (vs := reflectPoint reflectingMirror (fst (getMirrorEndpoints sourceMirror))).
  set (ve := reflectPoint reflectingMirror (snd (getMirrorEndpoints sourceMirror))).
  unfold getMirrorEndpoints at 1.
  cbn [m_position m_height m_rotation x y pow]. rewrite !Rmult_1_r.
  set (dx := x ve - x vs). set (dy := y ve - y vs).
  replace (Math_atan2 dx (- dy) * 180 / PI * PI / 180)
    with (Math_atan2 dx (- dy)) by (field; apply PI_neq0).
  destruct (Math_atan2_trig dx (- dy)) as [Hsin Hcos].
  replace (- dy * - dy + dx * dx) with (dx * dx + dy * dy) in Hsin, Hcos by ring.
  set (H := sqrt (dx * dx + dy * dy)) in *.
  set (t := Math_atan2 dx (- dy)) in *.
  destruct vs as [sx sy], ve as [ex ey]. cbn [x y] in *.
  f_equal; f_equal; unfold dx, dy in *; lra.
Qed.

(** ** Editing the scene *)

Lemma setAt_length {A : Type} (l : list A) (n : nat) (a : A) :
  List.length (setAt l n a) = List.length l.
Proof.
  revert n. induction l as [|b l IH]; intros [|n]; cbn; auto.
Qed.

Lemma setAt_same {A : Type} (l : list A) (n : nat) (a : A) :
  (n < List.length l)%nat -> nth_error (setAt l n a) n = Some a.
Proof.
  revert n. induction l as [|b l IH]; intros [|n] H; cbn in *;
    try lia; [reflexivity|]. apply IH. lia.
Qed.

Lemma setAt_other {A : Type} (l : list A) (n j : nat) (a : A) :
  j <> n -> nth_error (setAt l n a) j = nth_error l j.
Proof.
  revert n j. induction l as [|b l IH]; intros [|n] [|j] H; cbn;
    try reflexivity; try congruence. apply IH. congruence.
Qed.

Lemma outOfRange_false {A : Type} (l : list A) (index : Z) :
  outOfRange l index = false ->
  (0 <= index)%Z /\ (Z.to_nat index < List.length l)%nat.
Proof.
  unfold outOfRange. intros H. apply orb_false_elim in H as [H1 H2].
  apply Z.ltb_ge in H1. rewrite Z.geb_leb in H2. apply Z.leb_gt in H2. lia.
Qed.

(** Dropping the entry of index [i] from a list numbered from [s]. *)
Lemma drop_index_from {A : Type} (l : list A) (s i : nat) :
  (s <= i)%nat ->
  map snd
      (filter (fun im : nat * A => negb (Z.of_nat (fst im) =? Z.of_nat i)%Z)
              (combine (seq s (List.length l)) l))
  = firstn (i - s) l ++ skipn (S (i - s)) l.
Proof.
  revert s. induction l as [|b l IH]; intros s Hs;
    cbn [List.length seq combine filter fst].
  - now destruct (i - s)%nat.
  - destruct (Z.eqb_spec (Z.of_nat s) (Z.of_nat i)) as [E|N]; cbn [negb].
    + apply Nat2Z.inj in E. subst s. rewrite Nat.sub_diag. cbn [firstn skipn app].
      clear IH. assert (Hall : forall t, (i < t)%nat ->
        map snd (filter (fun im : nat * A =>
                   negb (Z.of_nat (fst im) =? Z.of_nat i)%Z)
                   (combine (seq t (List.length l)) l)) = l).
      { induction l as [|c l IHl]; intros t Ht; [reflexivity|].
        cbn [List.length seq combine filter fst].
        destruct (Z.eqb_spec (Z.of_nat t) (Z.of_nat i)) as [E|_]; [lia|].
        cbn [negb map snd]. f_equal. apply IHl. lia. }
      apply Hall. lia.
    + assert (s < i)%nat by lia.
      replace (i - s)%nat with (S (i - S s)) by lia.
      cbn [map snd firstn skipn app]. f_equal. apply IH. lia.
Qed.

Lemma removeMirror_inside (mirrors : list MirrorProps) (index : Z) :
  outOfRange mirrors index = false ->
  removeMirror mirrors index
  = firstn (Z.to_nat index) mirrors ++ skipn (S (Z.to_nat index)) mirrors.
Proof.
  intros H. unfold removeMirror. rewrite H.
  apply outOfRange_false in H as [H0 _].
  pose proof (drop_index_from mirrors 0 (Z.to_nat index) ltac:(lia)) as E.
  rewrite Z2Nat.id, Nat.sub_0_r in E by assumption. exact E.
Qed.

(** X29: with an index outside the list, [updateMirror] and [removeMirror]
    change nothing; with an index inside, [updateMirror] keeps the length,
    puts the merged mirror at that index and leaves every other entry as it
    was, and [removeMirror] deletes exactly the entry of that index. *)
Theorem scene_edits (fresh : nat) (mirrors : list MirrorProps) (index : Z)
    (props : MirrorPatch) :
  (outOfRange mirrors index = true ->
   updateMirror fresh mirrors index props = mirrors
   /\ removeMirror mirrors index = mirrors)
  /\ (outOfRange mirrors index = false ->
      List.length (updateMirror fresh mirrors index props) = List.length mirrors
      /\ (exists old,
            nth_error mirrors (Z.to_nat index) = Some old
            /\ nth_error (updateMirror fresh mirrors index props)
                         (Z.to_nat index)
               = Some (applyPatch fresh old props))
      /\ (forall j, j <> Z.to_nat index ->
            nth_error (updateMirror fresh mirrors index props) j
            = nth_error mirrors j)
      /\ removeMirror mirrors index
         = firstn (Z.to_nat index) mirrors
           ++ skipn (S (Z.to_nat index)) mirrors).
Proof.
  unfold updateMirror. split; intros H.
  - unfold removeMirror. now rewrite H.
  - rewrite H. pose proof (outOfRange_false mirrors index H) as [H0 Hlt].
    destruct (nth_error mirrors (Z.to_nat index)) as [old|] eqn:E.
    2:{ apply nth_error_None in E. lia. }
    split; [apply setAt_length|].
    split; [exists old; split; [reflexivity|now apply setAt_same]|].
    split; [intros j Hj; now apply setAt_other|].
    now apply removeMirror_inside.
Qed.

(** Dragging the second of the two default mirrors. *)
Lemma scene_edits_witness :
  List.length (updateMirror 7 [leftMirror; rightMirror] 1
                            (dragPatch (mkPoint 500 300))) = 2%nat.
Proof.
  destruct (scene_edits 7 [leftMirror; rightMirror] 1
              (dragPatch (mkPoint 500 300))) as [_ H].
  now destruct (H eq_refl) as [Hlen _].
Defined.

(** ** The scenes the application can reach *)

Lemma setAt_map {A B : Type} (f : A -> B) (l : list A) (n : nat) (a old : A) :
  nth_error l n = Some old -> f a = f old ->
  map f (setAt l n a) = map f l.
Proof.
  revert n. induction l as [|b l IH]; intros [|n] Hn Hf; cbn in *;
    try discriminate.
  - injection Hn as ->. now rewrite Hf.
  - f_equal. now apply IH.
Qed.

Lemma drag_keeps_rotations (fresh : nat) (mirrors : list MirrorProps)
    (index : Z) (p : Point) :
  rotationsOk mirrors ->
  rotationsOk (updateMirror fresh mirrors index (dragPatch p)).
Proof.
  intros [Hlen Hrot]. unfold updateMirror.
  destruct (outOfRange mirrors index); [now split|].
  destruct (nth_error mirrors (Z.to_nat index)) as [old|] eqn:E; [|now split].
  split; [now rewrite setAt_length|].
  rewrite setAt_length, (setAt_map m_rotation _ _ _ old E); [exact Hrot|].
  reflexivity.
Qed.

Lemma short_list {A : Type} (l : list A) :
  (List.length l <= 3)%nat ->
  l = [] \/ (exists a, l = [a]) \/ (exists a b, l = [a; b])
  \/ (exists a b c, l = [a; b; c]).
Proof.
  destruct l as [|a [|b [|c [|d l]]]]; cbn; intros H; try lia; eauto 8.
Qed.

Lemma remove_last_short (a b c : MirrorProps) :
  removeMirror [] (Z.of_nat (List.length (@nil MirrorProps)) - 1) = []
  /\ removeMirror [a] (Z.of_nat (List.length [a]) - 1) = []
  /\ removeMirror [a; b] (Z.of_nat (List.length [a; b]) - 1) = [a]
  /\ removeMirror [a; b; c] (Z.of_nat (List.length [a; b; c]) - 1) = [a; b].
Proof. repeat split; reflexivity. Qed.

Lemma slider_keeps_rotations (dflt : MirrorProps) (innerWidth innerHeight : R)
    (fresh : nat) (value : Z) (mirrors : list MirrorProps) :
  m_rotation dflt = 180 ->
  rotationsOk mirrors ->
  rotationsOk (sliderChange dflt innerWidth innerHeight fresh value mirrors).
Proof.
  intros Hd [Hlen Hrot]. unfold sliderChange.
  destruct (short_list mirrors Hlen)
    as [->|[[a ->]|[[a [b ->]]|[a [b [c ->]]]]]].
  - destruct (remove_last_short dflt dflt dflt) as [-> _].
    destruct (value <? _)%Z; [now split|].
    split; [cbn; lia|]. cbn. now rewrite Hd.
  - destruct (remove_last_short a a a) as [_ [-> _]].
    destruct (value <? _)%Z; [split; [cbn; lia|reflexivity]|].
    unfold appRotations in *. cbn in Hrot. injection Hrot as Ha.
    split; [cbn; lia|]. cbn. now rewrite Ha, Hd.
  - destruct (remove_last_short a b b) as [_ [_ [-> _]]].
    unfold appRotations in *. cbn in Hrot. injection Hrot as Ha Hb.
    destruct (value <? _)%Z; (split; [cbn; lia|]); cbn; now rewrite Ha, ?Hb.
  - destruct (remove_last_short a b c) as [_ [_ [_ ->]]].
    unfold appRotations in *. cbn in Hrot. injection Hrot as Ha Hb Hc.
    destruct (value <? _)%Z; (split; [cbn; lia|]); cbn;
      now rewrite ?Ha, ?Hb, ?Hd.
Qed.

Lemma reachable_rotations (dflt : MirrorProps) (mirrors : list MirrorProps) :
  m_rotation dflt = 180 -> reachable dflt mirrors -> rotationsOk mirrors.
Proof.
  intros Hd H. induction H.
  - split; [cbn; lia|]. cbn. now rewrite Hd.
  - now apply slider_keeps_rotations.
  - now apply drag_keeps_rotations.
Qed.

Lemma groups_of_app_scene (mirrors : list MirrorProps) :
  rotationsOk mirrors ->
  findParallelMirrorGroups mirrors
  = match mirrors with
    | m0 :: m1 :: _ => [[m0; m1]]
    | _ => []
    end.
Proof.
  intros [Hlen Hrot].
  assert (Hsame : forall a b, m_rotation a = 180 -> m_rotation b = 180 ->
                              areParallel a b = true).
  { intros a b Ha Hb. apply (areParallel_degrees a b 0); [|now left].
    rewrite Ha, Hb. replace (180 - 180) with 0 by lra. apply Rabs_R0. }
  assert (Hskew : forall a c, m_rotation a = 180 -> m_rotation c = 90 ->
                              areParallel a c = false).
  { intros a c Ha Hc. apply (areParallel_turns a c 90); [|reflexivity].
    rewrite Ha, Hc. replace (180 - 90) with 90 by lra. apply Rabs_right. lra. }
  destruct (short_list mirrors Hlen)
    as [->|[[a ->]|[[a [b ->]]|[a [b [c ->]]]]]];
    unfold appRotations in Hrot; cbn in Hrot; try reflexivity.
  - injection Hrot as Ha Hb.
    unfold findParallelMirrorGroups. cbn [groupLoop fold_left].
    rewrite (groupPair_parallel a b) by now apply Hsame. reflexivity.
  - injection Hrot as Ha Hb Hc.
    unfold findParallelMirrorGroups. cbn [groupLoop fold_left].
    rewrite (groupPair_parallel a b) by now apply Hsame.
    cbn [mergeIntoGroups app].
    rewrite (groupPair_skew a c) by now apply Hskew.
    rewrite (groupPair_skew b c) by now apply Hskew.
    reflexivity.
Qed.

(** X30: in every scene the application can reach (slider and dragging, from
    its initial state) there are at most three mirrors, and the grouping
    returns the single group of the first two mirrors when there are two or
    more, and no group otherwise. *)
Theorem reachable_scene_groups (ref : nat) (loadWidth loadHeight : R)
    (mirrors : list MirrorProps) :
  reachable (defaultMirror ref loadWidth loadHeight) mirrors ->
  (List.length mirrors <= 3)%nat
  /\ findParallelMirrorGroups mirrors
     = match mirrors with
       | m0 :: m1 :: _ => [[m0; m1]]
       | _ => []
       end.
Proof.
  intros H.
  apply reachable_rotations in H; [|reflexivity].
  split; [now destruct H|now apply groups_of_app_scene].
Qed.

(** One step of the slider from the initial scene. *)
Lemma reachable_scene_groups_witness :
  let dflt := defaultMirror 0 1000 600 in
  let scene :=
    sliderChange dflt 1000 600 2 2
      [applyPatch 1 dflt (mkPatch None None None None None None None)] in
  (List.length scene <= 3)%nat.
Proof.
  intros dflt scene.
  destruct (reachable_scene_groups 0 1000 600 scene) as [H _].
  - unfold scene. apply reach_slider. apply reach_init.
  - exact H.
Defined.

(** The two facing mirrors of the corner scene share a group. *)
Lemma parallel_pairs_are_grouped_witness :
  exists g, In g (findParallelMirrorGroups cornerScene)
            /\ includes g (plainMirror 0 0) = true
            /\ includes g (plainMirror 1 180) = true.
Proof.
  destruct (parallel_pairs_are_grouped cornerScene) as [H _].
  apply H.
  - exists 0%nat, 1%nat. repeat split. lia.
  - now destruct cornerScene_parallel as [HAB _].
Defined.
